(** * DGT-ZK: a shallow embedding of the confidential-transaction core

  The Python sources are embedded function by function:

  - [Py]          exceptions, results, [str]/[bytes], [bytes.fromhex], [str(int)]
  - [Hashlib]     [hashlib.sha256] (FIPS 180-4), as used for proofs and ids
  - [Pedersen]    encryption/pedersen_commitment.py
  - [Bulletproofs] verification/bulletproofs/{bulletproofs_utils,emulation,
                  bulletproofs_core,range_proof}.py
  - [Json], [Lmdb] the [json.dumps] serialisation and the ordered key-value
                  store behind data/ledger_db.py and data/notary_db.py
  - [Ledger]      data/ledger_db.py
  - [Notary]      data/notary_db.py
  - [Signature]   encryption/signature.py
  - [Float]       the binary64 subtraction and comparison of clock readings
  - [Emulator]    transactions/transaction_emulator.py
  - [TransactionFlow] transactions/transaction_flow.py (cancellation)
  - [Compliance]  verification/psi_protocol.py, compliance_verification.py
  - [Utils]       utils/helpers.py, utils/format_utils.py, utils/hash_utils.py
  - [TransactionUtils], [DataUtils]
                  transactions/transaction_utils.py, data/utils.py
  - [TransactionVerification]
                  transactions/transaction_anchor.py
  - [ZkInterface] encryption/zk_encryption_interface.py *)

From Stdlib Require Import ZArith QArith String Ascii List Bool Lia.
From stdpp Require Import strings gmap sorting.
Import ListNotations.

Local Open Scope string_scope.
Local Open Scope list_scope.
Local Open Scope Z_scope.

(* ===================================================================== *)
(** ** Python values the sources rely on *)
(* ===================================================================== *)

Module Py.

(** The exception classes the embedded functions can raise. *)
Inductive exn : Type :=
| ValueError (msg : string)
| KeyError (key : string)
| TypeError (msg : string)
| AttributeError (msg : string)
| MalformedPointError
| BadValsizeError.

(** Outcome of a call: a returned value or a raised exception. *)
Inductive result (A : Type) : Type :=
| Return (a : A)
| Raise (e : exn).
Arguments Return {A} a.
Arguments Raise {A} e.

Definition bind {A B} (r : result A) (k : A -> result B) : result B :=
  match r with
  | Return a => k a
  | Raise e => Raise e
  end.

Definition returns {A} (r : result A) : bool :=
  match r with Return _ => true | Raise _ => false end.

Definition raises {A} (r : result A) : bool := negb (returns r).

(** [bytes] objects: sequences of integers in [0, 256). *)
Definition bytes := list Z.

Definition code (c : ascii) : Z := Z.of_N (N_of_ascii c).
Definition chr (z : Z) : ascii := ascii_of_N (Z.to_N z).

(** [str.encode()]: UTF-8.  A [string] stands for a Python [str] whose
    characters are the code points U+0000..U+00FF. *)
Fixpoint encode (s : string) : bytes :=
  match s with
  | EmptyString => []
  | String c s' =>
      let cp := code c in
      if cp <? 128 then cp :: encode s'
      else Z.lor 192 (Z.shiftr cp 6) :: Z.lor 128 (Z.land cp 63) :: encode s'
  end.

(** [str(n)] for an [int]: decimal digits, a leading minus sign if negative. *)
Fixpoint digits_of_pos (fuel : nat) (n : Z) (acc : string) : string :=
  match fuel with
  | O => acc
  | S fuel' =>
      let acc' := String (chr (48 + n mod 10)) acc in
      if n / 10 =? 0 then acc' else digits_of_pos fuel' (n / 10) acc'
  end.

Definition str_of_int (n : Z) : string :=
  let a := Z.abs n in
  let ds := digits_of_pos (S (Z.to_nat (Z.log2 a))) a "" in
  if n <? 0 then String "-" ds else ds.

(** [bytes.fromhex]: pairs of hexadecimal digits, ASCII whitespace allowed
    between (not inside) the pairs; anything else raises [ValueError] (the
    position Python appends to the message is left out). *)
Definition hexval (c : ascii) : option Z :=
  let n := code c in
  if (48 <=? n) && (n <=? 57) then Some (n - 48)
  else if (97 <=? n) && (n <=? 102) then Some (n - 87)
  else if (65 <=? n) && (n <=? 70) then Some (n - 55)
  else None.

Definition is_space (c : ascii) : bool :=
  let n := code c in
  (n =? 32) || ((9 <=? n) && (n <=? 13)).

Definition fromhex_error : exn :=
  ValueError "non-hexadecimal number found in fromhex() arg".

Fixpoint fromhex (s : string) : result bytes :=
  match s with
  | EmptyString => Return []
  | String c s' =>
      if is_space c then fromhex s'
      else
        match hexval c, s' with
        | Some hi, String d s'' =>
            match hexval d with
            | Some lo => bind (fromhex s'') (fun bs => Return (16 * hi + lo :: bs))
            | None => Raise fromhex_error
            end
        | _, _ => Raise fromhex_error
        end
  end.

(** [bytes.hex()] and the digits of [hexdigest()]: lowercase. *)
Definition hexdigit (n : Z) : ascii :=
  if n <? 10 then chr (48 + n) else chr (87 + n).

Fixpoint hex (bs : bytes) : string :=
  match bs with
  | [] => ""
  | b :: bs' => String (hexdigit (b / 16)) (String (hexdigit (b mod 16)) (hex bs'))
  end.

(** [int.from_bytes(bs, "big")]. *)
Definition int_from_bytes (bs : bytes) : Z :=
  fold_left (fun acc b => acc * 256 + b) bs 0.

(** The items of a [bytes] object are in [0, 256). *)
Definition byte_range (bs : bytes) : Prop := Forall (fun b => 0 <= b < 256) bs.

(** [int(s, 16)] on a [str]: the characters are first brought to ASCII
    (a space for U+0085 and U+00A0, the end of the number at any other
    character from U+007F on), then read as blanks, an optional sign, an
    optional [0x] prefix followed by at most one underscore, hexadecimal
    digits with single underscores between them, and blanks.  [None] stands
    for the [ValueError] of an invalid literal. *)
Fixpoint to_ascii (s : list Z) : list Z :=
  match s with
  | [] => []
  | c :: s' =>
      if c <? 127 then c :: to_ascii s'
      else if (c =? 133) || (c =? 160) then 32 :: to_ascii s'
      else [63]
  end.

Definition is_blank (n : Z) : bool := (n =? 32) || ((9 <=? n) && (n <=? 13)).

Fixpoint skip_blanks (s : list Z) : list Z :=
  match s with
  | c :: s' => if is_blank c then skip_blanks s' else s
  | [] => []
  end.

Fixpoint scan_digits (s : list Z) (acc : Z) (after_underscore : bool)
  : option (Z * list Z) :=
  match s with
  | c :: s' =>
      if c =? 95 then
        if after_underscore then None else scan_digits s' acc true
      else
        match hexval (chr c) with
        | Some d => scan_digits s' (16 * acc + d) false
        | None => if after_underscore then None else Some (acc, s)
        end
  | [] => if after_underscore then None else Some (acc, [])
  end.

Definition strip_sign (s : list Z) : Z * list Z :=
  match s with
  | c :: s' =>
      if c =? 43 then (1, s') else if c =? 45 then (-1, s') else (1, s)
  | [] => (1, s)
  end.

Definition strip_prefix (s : list Z) : list Z :=
  match s with
  | c :: x :: s' =>
      if (c =? 48) && ((x =? 120) || (x =? 88)) then
        match s' with
        | u :: s'' => if u =? 95 then s'' else s'
        | [] => s'
        end
      else s
  | _ => s
  end.

Definition starts_with_digit (s : list Z) : bool :=
  match s with
  | c :: _ => match hexval (chr c) with Some _ => true | None => false end
  | [] => false
  end.

Definition int_base16 (text : string) : option Z :=
  let s := skip_blanks (to_ascii (map code (list_ascii_of_string text))) in
  let (sign, s) := strip_sign s in
  let s := strip_prefix s in
  if starts_with_digit s then
    match scan_digits s 0 false with
    | Some (v, rest) =>
        match skip_blanks rest with
        | [] => Some (sign * v)
        | _ :: _ => None
        end
    | None => None
    end
  else None.

End Py.

Export Py (result, Return, Raise).

(* ===================================================================== *)
(** ** hashlib.sha256 *)
(* ===================================================================== *)

Module Hashlib.

(** 32-bit words: [wrap] reduces modulo [2 ^ 32]. *)
Definition mask32 : Z := 4294967295.
Definition wrap (x : Z) : Z := Z.land x mask32.
Definition add32 (x y : Z) : Z := wrap (x + y).
Definition rotr (n x : Z) : Z :=
  Z.lor (Z.shiftr x n) (wrap (Z.shiftl x (32 - n))).
Definition not32 (x : Z) : Z := Z.lxor x mask32.

Definition choose (e f g : Z) : Z := Z.lxor (Z.land e f) (Z.land (not32 e) g).
Definition majority (a b c : Z) : Z :=
  Z.lxor (Z.lxor (Z.land a b) (Z.land a c)) (Z.land b c).
Definition big_sigma0 (a : Z) : Z :=
  Z.lxor (Z.lxor (rotr 2 a) (rotr 13 a)) (rotr 22 a).
Definition big_sigma1 (e : Z) : Z :=
  Z.lxor (Z.lxor (rotr 6 e) (rotr 11 e)) (rotr 25 e).
Definition small_sigma0 (x : Z) : Z :=
  Z.lxor (Z.lxor (rotr 7 x) (rotr 18 x)) (Z.shiftr x 3).
Definition small_sigma1 (x : Z) : Z :=
  Z.lxor (Z.lxor (rotr 17 x) (rotr 19 x)) (Z.shiftr x 10).

(** The round constants are the first 32 fractional bits of the cube roots
    of the first 64 primes, the initial state those of the square roots of
    the first 8; both tables are computed here rather than typed in. *)
Definition is_prime (p : Z) : bool :=
  (2 <=? p) &&
  forallb (fun d => negb (p mod d =? 0) || (p <=? d))
          (map Z.of_nat (seq 2 18)).

Definition first_primes : list Z :=
  Eval vm_compute in firstn 64 (List.filter is_prime (map Z.of_nat (seq 2 320))).

(** Integer cube root by bisection on the bits of the result. *)
Fixpoint icbrt_bits (bit : nat) (x r : Z) : Z :=
  let try := r + 2 ^ Z.of_nat bit in
  let r' := if try * try * try <=? x then try else r in
  match bit with
  | O => r'
  | S b => icbrt_bits b x r'
  end.

Definition icbrt (x : Z) : Z := icbrt_bits 40 x 0.

Definition round_constants : list Z :=
  Eval vm_compute in map (fun p => wrap (icbrt (p * 2 ^ 96))) first_primes.

Definition initial_state : list Z :=
  Eval vm_compute in map (fun p => wrap (Z.sqrt (p * 2 ^ 64))) (firstn 8 first_primes).

(** Padding: a 1 bit, zeros up to 56 mod 64, the bit length on 8 bytes. *)
Definition be_bytes (width : nat) (x : Z) : Py.bytes :=
  map (fun i => Z.land (Z.shiftr x (8 * Z.of_nat i)) 255) (rev (seq 0 width)).

Definition pad (msg : Py.bytes) : Py.bytes :=
  let len := Z.of_nat (length msg) in
  msg ++ [128] ++ repeat 0 (Z.to_nat ((55 - len) mod 64)) ++ be_bytes 8 (8 * len).

Fixpoint words (n : nat) (block : Py.bytes) : list Z :=
  match n with
  | O => []
  | S n' => Py.int_from_bytes (firstn 4 block) :: words n' (skipn 4 block)
  end.

(** Message schedule, most recent word first. *)
Fixpoint schedule (n : nat) (recent : list Z) : list Z :=
  match n with
  | O => recent
  | S n' =>
      let w := add32 (add32 (small_sigma1 (nth 1 recent 0)) (nth 6 recent 0))
                     (add32 (small_sigma0 (nth 14 recent 0)) (nth 15 recent 0)) in
      schedule n' (w :: recent)
  end.

Record regs := Regs { ra : Z; rb : Z; rc : Z; rd : Z; re : Z; rf : Z; rg : Z; rh : Z }.

Definition round (s : regs) (kw : Z * Z) : regs :=
  let t1 := add32 (add32 (add32 (rh s) (big_sigma1 (re s)))
                         (add32 (choose (re s) (rf s) (rg s)) (fst kw))) (snd kw) in
  let t2 := add32 (big_sigma0 (ra s)) (majority (ra s) (rb s) (rc s)) in
  Regs (add32 t1 t2) (ra s) (rb s) (rc s) (add32 (rd s) t1) (re s) (rf s) (rg s).

Definition compress (h : regs) (block : Py.bytes) : regs :=
  let w := rev (schedule 48 (rev (words 16 block))) in
  let s := fold_left round (combine round_constants w) h in
  Regs (add32 (ra h) (ra s)) (add32 (rb h) (rb s)) (add32 (rc h) (rc s))
       (add32 (rd h) (rd s)) (add32 (re h) (re s)) (add32 (rf h) (rf s))
       (add32 (rg h) (rg s)) (add32 (rh h) (rh s)).

Fixpoint blocks (n : nat) (h : regs) (data : Py.bytes) : regs :=
  match n with
  | O => h
  | S n' => blocks n' (compress h (firstn 64 data)) (skipn 64 data)
  end.

Definition regs_of_list (l : list Z) : regs :=
  Regs (nth 0 l 0) (nth 1 l 0) (nth 2 l 0) (nth 3 l 0)
       (nth 4 l 0) (nth 5 l 0) (nth 6 l 0) (nth 7 l 0).

(** [sha256(msg).digest()] *)
Definition sha256 (msg : Py.bytes) : Py.bytes :=
  let data := pad msg in
  let h := blocks (length data / 64) (regs_of_list initial_state) data in
  flat_map (be_bytes 4) [ra h; rb h; rc h; rd h; re h; rf h; rg h; rh h].

(** [sha256(msg).hexdigest()] *)
Definition sha256_hex (msg : Py.bytes) : string := Py.hex (sha256 msg).

End Hashlib.


(* ===================================================================== *)
(** ** encryption/pedersen_commitment.py *)
(* ===================================================================== *)

Module Pedersen.

(** [n = curve.order]: the order of SECP256k1's generator. *)
Definition n : Z :=
  115792089237316195423570985008687907852837564279074904382605163141518161494337.

(** The points of the ecdsa library.  [G] generates a cyclic group of prime
    order [n], and the module only ever forms multiples of [G]; the point
    [k * G] is represented by the residue [k mod n], so that point addition,
    scalar multiplication and [==] are those of the group. *)
Definition point : Type := Z.

Definition G : point := 1.

Definition point_mul (P : point) (k : Z) : point := (P * k) mod n.

Definition point_add (P Q : point) : point := (P + Q) mod n.

Definition point_eqb (P Q : point) : bool := P mod n =? Q mod n.

(** [generate_random()]: [secrets.randbelow(n)].  The entropy source is made
    an input: [draw] is the integer the call returns, [0 <= draw < n]. *)
Definition generate_random (draw : Z) : Z := draw.

(** [x or y] for an optional [int] [x]: [None] and [0] are false, and the
    right operand is evaluated only then. *)
Definition or_else (x : option Z) (y : Z) : Z :=
  match x with
  | Some v => if v =? 0 then y else v
  | None => y
  end.

(** [create_commitment(value, random_factor=None)].  [random_factor] is
    [None] when the argument is omitted; [draw] is what [generate_random()]
    returns if the [or] falls through to it. *)
Definition create_commitment (value : Z) (random_factor : option Z) (draw : Z)
  : point * Z :=
  let random_factor := or_else random_factor (generate_random draw) in
  let commitment := point_add (point_mul G value) (point_mul G random_factor) in
  (commitment, random_factor).

(** [verify_commitment(commitment, value, random_factor)] *)
Definition verify_commitment (commitment : point) (value random_factor : Z) : bool :=
  let expected_commitment :=
    point_add (point_mul G value) (point_mul G random_factor) in
  point_eqb commitment expected_commitment.

End Pedersen.

(* ===================================================================== *)
(** ** verification/bulletproofs *)
(* ===================================================================== *)

Module Bulletproofs.

(** *** bulletproofs_utils.py *)

Module Utils.

(** [compute_challenge(transcript, length=256)], for a [length] that is
    not negative: with a negative one [2 ** length] is a [float] and so is
    the result. *)
Definition compute_challenge (transcript : string) (length : Z) : Z :=
  let hash_value := Hashlib.sha256 (Py.encode transcript) in
  Py.int_from_bytes hash_value mod 2 ^ length.

(** [validate_commitment_range(commitment, range_min, range_max)] *)
Definition validate_commitment_range (commitment range_min range_max : Z) : bool :=
  (range_min <=? commitment) && (commitment <=? range_max).

(** [multiexponentiation(bases, exponents)].  The exponents are the
    non-negative integers: a negative one takes [base ** exponent] out of
    the integers. *)
Definition multiexponentiation (bases : list Z) (exponents : list N) : result Z :=
  if negb (Nat.eqb (length bases) (length exponents))
  then Raise (Py.ValueError "Bases and exponents must be of the same length.")
  else
    Return (fold_left (fun result be => result * fst be ^ Z.of_N (snd be))
                      (combine bases exponents) 1).

(** [hash_to_point(data)]: the hexadecimal digest read back by [int(_, 16)]. *)
Definition hash_to_point (data : string) : option Z :=
  Py.int_base16 (Hashlib.sha256_hex (Py.encode data)).

End Utils.

(** *** emulation.py *)

Module Emulation.

Import Utils.

(** Modelled from the spec: [check_range], which emulation.py imports from
    range_proof.py and no file of the repository defines.  The spec's [Prove]
    fails with [OutOfRange] exactly when the value is not in [[min, max]]; the
    caller's error message and the sibling [validate_commitment_range] say
    the same. *)
Definition check_range (commitment range_min range_max : Z) : bool :=
  (range_min <=? commitment) && (commitment <=? range_max).

Definition out_of_range : Py.exn :=
  Py.ValueError "Commitment is out of the specified range.".

(** The f-string ["{commitment}-{range_min}-{range_max}-{proof_status}"]. *)
Definition transcript (commitment range_min range_max : Z) (proof_status : string)
  : string :=
  Py.str_of_int commitment +:+ "-" +:+ Py.str_of_int range_min +:+ "-" +:+
  Py.str_of_int range_max +:+ "-" +:+ proof_status.

(** [generate_bulletproof(commitment, range_min, range_max, simulate_correct=True)] *)
Definition generate_bulletproof
  (commitment range_min range_max : Z) (simulate_correct : bool) : result Z :=
  if negb (check_range commitment range_min range_max) then Raise out_of_range
  else
    let proof_status := if simulate_correct then "valid" else "invalid" in
    let proof := compute_challenge (transcript commitment range_min range_max proof_status) 256 in
    Return proof.

(** [verify_bulletproof(commitment, proof, range_min, range_max, expected_correct=True)] *)
Definition verify_bulletproof
  (commitment proof range_min range_max : Z) (expected_correct : bool) : result bool :=
  Py.bind (generate_bulletproof commitment range_min range_max expected_correct)
          (fun correct_proof => Return (proof =? correct_proof)).

End Emulation.

(** *** bulletproofs_core.py *)

Module Core.

Definition BULLETPROOF_IMPLEMENTATION : string := "emulation".

Definition unsupported : Py.exn :=
  Py.ValueError "Invalid or unsupported Bulletproof implementation selected.".

(** The dispatchers.  Their "dalek" and "fastecdsa" branches compare the
    constant above with another literal and are never taken; they call into
    foreign libraries and are left out.  No keyword argument is forwarded by
    the callers embedded here, so the emulation runs with its defaults. *)
Definition generate_bulletproof (commitment range_min range_max : Z) : result Z :=
  if String.eqb BULLETPROOF_IMPLEMENTATION "emulation"
  then Emulation.generate_bulletproof commitment range_min range_max true
  else Raise unsupported.

Definition verify_bulletproof (commitment proof range_min range_max : Z)
  : result bool :=
  if String.eqb BULLETPROOF_IMPLEMENTATION "emulation"
  then Emulation.verify_bulletproof commitment proof range_min range_max true
  else Raise unsupported.

End Core.

(** *** range_proof.py *)

Module RangeProof.

(** [create_range_proof(amount, g, h, range_min, range_max)].  The proof
    comes from the dispatcher, hence from the emulation, whose commitments
    are [int]s that it compares with the range and prints in decimal; the
    generators are therefore the integers the emulation is run with (the
    docstring calls them points; no backend that takes points is
    configured), and [*] and [+] are those of [int].  [blinding_factor] is
    the value drawn by [secrets.randbelow(secp256k1.q)], from 0 to below
    the order of the group. *)
Definition create_range_proof
  (amount g h range_min range_max : Z) (blinding_factor : Z) : result (Z * Z) :=
  let commitment := (g * amount) + (h * blinding_factor) in
  Py.bind (Core.generate_bulletproof commitment range_min range_max)
          (fun proof => Return (commitment, proof)).

(** [validate_range_proof(commitment, proof, range_min, range_max)] *)
Definition validate_range_proof (commitment proof range_min range_max : Z)
  : result bool :=
  Core.verify_bulletproof commitment proof range_min range_max.

End RangeProof.

End Bulletproofs.

(* ===================================================================== *)
(** ** json.dumps on the flat records the stores hold *)
(* ===================================================================== *)

Module Json.

(** The values of a record's fields: [str] or [int]. *)
Inductive value : Type :=
| Str (s : string)
| Int (z : Z).

(** A [dict] with [str] keys, in insertion order. *)
Definition dict : Type := list (string * value).

(** [d[key]]: the value, or [KeyError]. *)
Fixpoint getitem (d : dict) (key : string) : result value :=
  match d with
  | [] => Raise (Py.KeyError key)
  | (k, v) :: d' => if String.eqb k key then Return v else getitem d' key
  end.

(** [key in d] *)
Definition contains (d : dict) (key : string) : bool := Py.returns (getitem d key).

(** [v == s] for a [str] [s]: an [int] is never equal to a [str]. *)
Definition eq_str (v : value) (s : string) : bool :=
  match v with
  | Str s' => String.eqb s' s
  | Int _ => false
  end.

(** [f"{v}"] *)
Definition format (v : value) : string :=
  match v with
  | Str s => s
  | Int z => Py.str_of_int z
  end.

(** String literals as [json.dumps] writes them ([ensure_ascii=True]). *)
Definition dquote : string := String (Py.chr 34) "".
Definition backslash : string := String (Py.chr 92) "".

Definition escape (c : ascii) : string :=
  let cp := Py.code c in
  if cp =? 34 then backslash +:+ dquote
  else if cp =? 92 then backslash +:+ backslash
  else if cp =? 10 then "\n"
  else if cp =? 13 then "\r"
  else if cp =? 9 then "\t"
  else if cp =? 8 then "\b"
  else if cp =? 12 then "\f"
  else if (32 <=? cp) && (cp <=? 126) then String c ""
  else "\u00" +:+ String (Py.hexdigit (cp / 16)) (String (Py.hexdigit (cp mod 16)) "").

Fixpoint escape_all (s : string) : string :=
  match s with
  | EmptyString => ""
  | String c s' => escape c +:+ escape_all s'
  end.

Definition quote (s : string) : string := dquote +:+ escape_all s +:+ dquote.

Definition dumps_value (v : value) : string :=
  match v with
  | Str s => quote s
  | Int z => Py.str_of_int z
  end.

(** [sorted] on the items of a dict, by key (code-point order). *)
Fixpoint insert_item (kv : string * value) (d : dict) : dict :=
  match d with
  | [] => [kv]
  | kv' :: d' =>
      if String.leb (fst kv) (fst kv') then kv :: d else kv' :: insert_item kv d'
  end.

Definition sort_items (d : dict) : dict := fold_right insert_item [] d.

Fixpoint join (sep : string) (parts : list string) : string :=
  match parts with
  | [] => ""
  | [x] => x
  | x :: rest => x +:+ sep +:+ join sep rest
  end.

(** [json.dumps(d, sort_keys=...)] with the default separators. *)
Definition dumps (sort_keys : bool) (d : dict) : string :=
  let items := if sort_keys then sort_items d else d in
  "{" +:+ join ", " (map (fun kv => quote (fst kv) +:+ ": " +:+ dumps_value (snd kv)) items)
      +:+ "}".

End Json.

(* ===================================================================== *)
(** ** The LMDB environment behind both stores *)
(* ===================================================================== *)

Module Lmdb.

(** Keys are [bytes], ordered lexicographically as LMDB orders them. *)
Fixpoint compare (a b : Py.bytes) : comparison :=
  match a, b with
  | [], [] => Eq
  | [], _ :: _ => Lt
  | _ :: _, [] => Gt
  | x :: a', y :: b' =>
      match x ?= y with
      | Eq => compare a' b'
      | c => c
      end
  end.

(** [key.startswith(prefix)] *)
Fixpoint startswith (key prefix : Py.bytes) : bool :=
  match prefix, key with
  | [], _ => true
  | _ :: _, [] => false
  | p :: prefix', k :: key' => (k =? p) && startswith key' prefix'
  end.

Section Env.

Context {V : Type}.

(** The content of an environment: its entries in key order, as a cursor
    walks them.  A stored value is kept as the record it deserialises to
    ([json.loads] undoes [json.dumps] on the records embedded here). *)
Definition env : Type := list (Py.bytes * V).

(** What a [txn.put] that LMDB accepts does to the entries: it inserts, or
    overwrites the entry of that key (py-lmdb's [overwrite=True] default). *)
Fixpoint write (key : Py.bytes) (v : V) (e : env) : env :=
  match e with
  | [] => [(key, v)]
  | (k, w) :: e' =>
      match compare key k with
      | Lt => (key, v) :: e
      | Eq => (key, v) :: e'
      | Gt => (k, w) :: write key v e'
      end
  end.

(** [env.max_key_size()] of the LMDB that py-lmdb builds. *)
Definition max_key_size : nat := 511.

(** The keys LMDB takes in a write: 1 to [max_key_size] bytes. *)
Definition valid_key (key : Py.bytes) : bool :=
  Nat.leb 1 (length key) && Nat.leb (length key) max_key_size.

(** [txn.put(key, value)]: [lmdb.BadValsizeError] for an empty key or one
    over the size limit, the write otherwise.  Both stores open their map
    with 10^9 bytes; the map is taken to have room. *)
Definition put (key : Py.bytes) (v : V) (e : env) : result env :=
  if valid_key key then Return (write key v e) else Raise Py.BadValsizeError.

(** [txn.get(key)] *)
Fixpoint get (key : Py.bytes) (e : env) : option V :=
  match e with
  | [] => None
  | (k, w) :: e' =>
      match compare key k with
      | Eq => Some w
      | _ => get key e'
      end
  end.

(** [txn.delete(key)]: whether an entry was removed, and what is left. *)
Fixpoint delete (key : Py.bytes) (e : env) : bool * env :=
  match e with
  | [] => (false, [])
  | (k, w) :: e' =>
      match compare key k with
      | Eq => (true, e')
      | _ => let r := delete key e' in (fst r, (k, w) :: snd r)
      end
  end.

(** The keys of an environment increase strictly. *)
Fixpoint sorted (e : env) : bool :=
  match e with
  | [] => true
  | (k, _) :: e' =>
      match e' with
      | [] => true
      | (k', _) :: _ =>
          match compare k k' with Lt => sorted e' | _ => false end
      end
  end.

(** The first key of an environment, if any, is above [k]. *)
Definition above (k : Py.bytes) (e : env) : Prop :=
  match e with
  | [] => True
  | (k', _) :: _ => compare k k' = Lt
  end.

End Env.

Arguments env V : clear implicits.

End Lmdb.

(* ===================================================================== *)
(** ** data/ledger_db.py *)
(* ===================================================================== *)

Module Ledger.

Definition ledger : Type := Lmdb.env Json.dict.

(** [_generate_tx_id(tx)] *)
Definition _generate_tx_id (tx : Json.dict) : string :=
  Hashlib.sha256_hex (Py.encode (Json.dumps true tx)).

(** The key ["{family}_{tx_id}"], encoded. *)
Definition tx_key (family tx_id : string) : Py.bytes :=
  Py.encode (family +:+ "_" +:+ tx_id).

(** [save_transaction(tx)]: the environment after the write transaction, or
    the exception raised before it began. *)
Definition save_transaction (tx : Json.dict) (db : ledger) : result ledger :=
  let tx_id := _generate_tx_id tx in
  Py.bind (Json.getitem tx "TX_FAMILY") (fun family =>
  let key := tx_key (Json.format family) tx_id in
  Lmdb.put key tx db).

(** [get_transaction(tx_id, tx_family)] *)
Definition get_transaction (tx_id tx_family : string) (db : ledger) : option Json.dict :=
  Lmdb.get (tx_key tx_family tx_id) db.

(** [balance += v] and [balance -= v] on an [int] balance. *)
Definition add_amount (sign balance : Z) (v : Json.value) : result Z :=
  match v with
  | Json.Int a => Return (balance + sign * a)
  | Json.Str _ =>
      Raise (Py.TypeError ("unsupported operand type(s) for "
                           +:+ (if sign <? 0 then "-=" else "+=")
                           +:+ ": 'int' and 'str'"))
  end.

(** One turn of the cursor loop of [get_balance]. *)
Definition balance_step (address : string) (prefix : Py.bytes)
  (balance : Z) (entry : Py.bytes * Json.dict) : result Z :=
  let (key, tx) := entry in
  if Lmdb.startswith key prefix then
    Py.bind (Json.getitem tx "recipient") (fun recipient =>
    if Json.eq_str recipient address then
      Py.bind (Json.getitem tx "amount") (add_amount 1 balance)
    else
      Py.bind (Json.getitem tx "sender") (fun sender =>
      if Json.eq_str sender address then
        Py.bind (Json.getitem tx "amount") (add_amount (-1) balance)
      else Return balance))
  else Return balance.

Fixpoint balance_loop (address : string) (prefix : Py.bytes)
  (balance : Z) (cursor : ledger) : result Z :=
  match cursor with
  | [] => Return balance
  | entry :: rest =>
      Py.bind (balance_step address prefix balance entry)
              (fun balance' => balance_loop address prefix balance' rest)
  end.

(** [get_balance(address, tx_family="financial_tx")] *)
Definition get_balance (address tx_family : string) (db : ledger) : result Z :=
  balance_loop address (Py.encode (tx_family +:+ "_")) 0 db.

(** [delete_transaction(tx_id, tx_family)] *)
Definition delete_transaction (tx_id tx_family : string) (db : ledger) : bool * ledger :=
  Lmdb.delete (tx_key tx_family tx_id) db.

(** The cursor loop of [get_all_transactions]: [tx_family] is [None] when
    the argument is omitted. *)
Fixpoint all_loop (tx_family : option string) (cursor : ledger) : list Json.dict :=
  match cursor with
  | [] => []
  | (key, tx) :: rest =>
      let keep :=
        match tx_family with
        | None => true
        | Some f => Lmdb.startswith key (Py.encode (f +:+ "_"))
        end in
      if keep then tx :: all_loop tx_family rest else all_loop tx_family rest
  end.

(** [get_all_transactions(tx_family=None)] *)
Definition get_all_transactions (tx_family : option string) (db : ledger)
  : list Json.dict :=
  all_loop tx_family db.

(** The balance as the specification words it: over the records of the
    family partition, [+amount] where the recipient is the address and
    [-amount] where the sender is. *)
Definition field_is (tx : Json.dict) (field address : string) : bool :=
  match Json.getitem tx field with
  | Return v => Json.eq_str v address
  | Raise _ => false
  end.

Definition amount_of (tx : Json.dict) : Z :=
  match Json.getitem tx "amount" with
  | Return (Json.Int a) => a
  | _ => 0
  end.

Definition spec_contribution (address : string) (tx : Json.dict) : Z :=
  (if field_is tx "recipient" address then amount_of tx else 0)
  - (if field_is tx "sender" address then amount_of tx else 0).

Definition spec_balance (address tx_family : string) (db : ledger) : Z :=
  fold_right
    (fun entry acc =>
       if Lmdb.startswith (fst entry) (Py.encode (tx_family +:+ "_"))
       then spec_contribution address (snd entry) + acc else acc)
    0 db.

(** A record that carries the three fields [get_balance] reads, with an
    [int] amount. *)
Definition well_formed (tx : Json.dict) : bool :=
  Json.contains tx "recipient" && Json.contains tx "sender" &&
  match Json.getitem tx "amount" with Return (Json.Int _) => true | _ => false end.

End Ledger.

(* ===================================================================== *)
(** ** data/notary_db.py *)
(* ===================================================================== *)

Module Notary.

(** A [datetime]: microseconds since the epoch, the resolution of the type. *)
Definition datetime : Type := Z.

(** The stored record: its ["expires_at"] key is optional. *)
Record record : Type := NotaryRecord {
  content : string;
  signature : string;
  timestamp : datetime;
  expires_at : option datetime
}.

Definition notary : Type := Lmdb.env record.

Definition record_key (record_id : string) : Py.bytes :=
  Py.encode ("notary_" +:+ record_id).

(** [delete_notary_record(record_id)] *)
Definition delete_notary_record (record_id : string) (db : notary) : bool * notary :=
  Lmdb.delete (record_key record_id) db.

(** [get_notary_record(record_id)]: the returned value and the environment
    left behind; [now] is the reading of [datetime.utcnow()]. *)
Definition get_notary_record (record_id : string) (now : datetime) (db : notary)
  : option record * notary :=
  match Lmdb.get (record_key record_id) db with
  | Some r =>
      match expires_at r with
      | Some expiration_time =>
          if now >? expiration_time
          then (None, snd (delete_notary_record record_id db))
          else (Some r, db)
      | None => (Some r, db)
      end
  | None => (None, db)
  end.

(** The cursor loop of [list_notary_records].  [datetime.utcnow()] is read
    once for each record that is tested for expiry: [clock i] is the [i]-th
    reading, [tick] the number of readings made so far. *)
Fixpoint list_loop (include_expired : bool) (clock : nat -> datetime) (tick : nat)
  (cursor : notary) : list record :=
  match cursor with
  | [] => []
  | (key, r) :: rest =>
      if Lmdb.startswith key (Py.encode "notary_") then
        match expires_at r with
        | Some expiration_time =>
            if negb include_expired then
              if clock tick >? expiration_time
              then list_loop include_expired clock (S tick) rest
              else r :: list_loop include_expired clock (S tick) rest
            else r :: list_loop include_expired clock tick rest
        | None => r :: list_loop include_expired clock tick rest
        end
      else list_loop include_expired clock tick rest
  end.

(** [list_notary_records(include_expired=False)] *)
Definition list_notary_records (include_expired : bool) (clock : nat -> datetime)
  (db : notary) : list record :=
  list_loop include_expired clock 0 db.

(** A record past its expiry at time [now]. *)
Definition expired (now : datetime) (r : record) : bool :=
  match expires_at r with
  | Some expiration_time => expiration_time <? now
  | None => false
  end.

(** What [save_notary_record] ends with: the id of the stored record and
    the environment, the [NameError] of a name the module never binds, or
    the exception of [txn.put]. *)
Inductive saved : Type :=
| Saved (record_id : string) (db : notary)
| NameError (name : string)
| PutError (e : Py.exn).

Section Save.

(** [datetime.isoformat()], a function of the library. *)
Variable isoformat : datetime -> string.

(** [save_notary_record(content, signature, expiration_minutes=0)]; [now]
    is the reading of [datetime.utcnow()] that goes into the record.  The
    module imports [datetime] only, so the branch that builds
    [expires_at] stops at the name [timedelta]. *)
Definition save_notary_record (content signature : string)
  (expiration_minutes : Z) (now : datetime) (db : notary) : saved :=
  let record_data :=
    [("content", Json.Str content); ("signature", Json.Str signature);
     ("timestamp", Json.Str (isoformat now))] in
  if expiration_minutes >? 0 then NameError "timedelta"
  else
    let record_id := Hashlib.sha256_hex (Py.encode (Json.dumps true record_data)) in
    match Lmdb.put (record_key record_id)
                   {| content := content; signature := signature;
                      timestamp := now; expires_at := None |} db with
    | Return db' => Saved record_id db'
    | Raise e => PutError e
    end.

End Save.

End Notary.

(* ===================================================================== *)
(** ** encryption/signature.py *)
(* ===================================================================== *)

Module Signature.

Section Verify.

(** The ecdsa and eth_utils libraries are collaborators:
    - [message_of tx] is [keccak(text=str(tx)).digest()], which raises
      [AttributeError] where [keccak] returns a [bytes] object, as that of
      eth_utils does;
    - [from_string] is [VerifyingKey.from_string(_, curve=SECP256k1)], which
      raises [MalformedPointError] on bytes that encode no point;
    - [ecdsa_verify vk sig msg] tells whether [vk.verify(sig, msg)] returns
      [True]; otherwise it raises [BadSignatureError], also for a signature
      of the wrong length. *)
Context {transaction verifying_key : Type}.
Variable message_of : transaction -> result Py.bytes.
Variable from_string : Py.bytes -> option verifying_key.
Variable ecdsa_verify : verifying_key -> Py.bytes -> Py.bytes -> bool.

(** [verify_signature(tx, public_key, signature)].  Only
    [BadSignatureError] is caught; the [ValueError] of [bytes.fromhex]
    inside the [try] is not. *)
Definition verify_signature (tx : transaction) (public_key signature : string)
  : result bool :=
  Py.bind (Py.fromhex public_key) (fun key_bytes =>
  match from_string key_bytes with
  | None => Raise Py.MalformedPointError
  | Some public_key_obj =>
      Py.bind (message_of tx) (fun message =>
      Py.bind (Py.fromhex signature) (fun signature_bytes =>
      if ecdsa_verify public_key_obj signature_bytes message
      then Return true
      else Return false))
  end).

End Verify.

End Signature.

(* ===================================================================== *)
(** ** Python floats *)
(* ===================================================================== *)

Module Float.

(** A [float] is a binary64 value: a finite one is kept as the rational it
    denotes (the two zeros are not told apart), beside the infinities.  No
    operation embedded here produces a NaN. *)
Inductive float : Type :=
| Finite (q : Q)
| Infinity (negative : bool).

(** The integer nearest to [n / d], the even one of two that are equally
    near ([0 <= n], [0 < d]). *)
Definition nearest_even (n d : Z) : Z :=
  let q := n / d in
  let r := n mod d in
  if 2 * r <? d then q
  else if d <? 2 * r then q + 1
  else if Z.even q then q else q + 1.

(** The [e] with [2 ^ e <= n / d < 2 ^ (e + 1)] ([0 < n], [0 < d]): the
    binary logarithm of the integer part from 1 on, and below 1 the opposite
    of the logarithm, rounded up, of the inverse rounded up. *)
Definition exponent (n d : Z) : Z :=
  if d <=? n then Z.log2 (n / d) else - Z.log2_up ((d + n - 1) / n).

(** Rounding of the positive rational [n / d]: 53 significant bits, no
    exponent under -1022 (from there down the values are 2^-1074 apart),
    to the nearest value, ties to even; [None] from 2^1024 on. *)
Definition round_pos (n d : Z) : option Q :=
  let e := Z.max (exponent n d) (-1022) in
  let k := e - 52 in
  if 0 <=? k then
    let m := nearest_even n (d * 2 ^ k) in
    if 2 ^ 1024 <=? m * 2 ^ k then None else Some (m * 2 ^ k # 1)
  else
    let m := nearest_even (n * 2 ^ (- k)) d in
    Some (m # Z.to_pos (2 ^ (- k))).

(** The float an exact result is rounded to. *)
Definition of_Q (x : Q) : float :=
  match Qnum x with
  | Z0 => Finite 0
  | Zpos n =>
      match round_pos (Zpos n) (Zpos (Qden x)) with
      | Some q => Finite q
      | None => Infinity false
      end
  | Zneg n =>
      match round_pos (Zpos n) (Zpos (Qden x)) with
      | Some q => Finite (- q)
      | None => Infinity true
      end
  end.

(** [a - b] on two finite floats. *)
Definition sub (a b : Q) : float := of_Q (a - b).

(** [x > w] for a float [x] and an [int] (or a finite float) [w]: Python
    compares the two exactly. *)
Definition gt (x : float) (w : Q) : bool :=
  match x with
  | Finite q => negb (Qle_bool q w)
  | Infinity negative => negb negative
  end.

(** The rationals that are floats. *)
Definition is_float (x : Q) : bool :=
  match of_Q x with
  | Finite q => Qeq_bool q x
  | Infinity _ => false
  end.

End Float.

(* ===================================================================== *)
(** ** transactions/transaction_emulator.py *)
(* ===================================================================== *)

Module Emulator.

(** A transaction [dict] as the notary storage sees it: its id, the fields
    set by [create_transaction], and the ["anchored"] key once it is set.
    A reading of [time.time()] is a finite float, in seconds, kept as the
    rational it denotes. *)
Record transaction : Type := Transaction {
  tx_id : string;
  body : Json.dict;
  anchored : option Q
}.

(** The emulator object: [anchor_transaction] and [cancel_transaction] read
    and write [notary_storage] and [cancellation_window] only. *)
Record emulator : Type := TransactionEmulator {
  notary_storage : gmap string transaction;
  cancellation_window : Q
}.

(** [TransactionEmulator()] *)
Definition init : emulator :=
  {| notary_storage := ∅; cancellation_window := 120 # 1 |}.

(** [anchor_transaction(tx)] at clock reading [now]. *)
Definition anchor_transaction (tx : transaction) (now : Q) (st : emulator)
  : string * emulator :=
  let tx_id := tx_id tx in
  let tx := {| tx_id := tx_id; body := body tx; anchored := Some now |} in
  ("Transaction " +:+ tx_id +:+ " anchored in notary storage.",
   {| notary_storage := <[tx_id := tx]> (notary_storage st);
      cancellation_window := cancellation_window st |}).

(** [cancel_transaction(tx_id)] at clock reading [now]: the difference of
    the two readings is a float subtraction. *)
Definition cancel_transaction (id : string) (now : Q) (st : emulator)
  : result (bool * emulator) :=
  match notary_storage st !! id with
  | None => Return (false, st)
  | Some tx =>
      match anchored tx with
      | None => Raise (Py.KeyError "anchored")
      | Some t0 =>
          if Float.gt (Float.sub now t0) (cancellation_window st)
          then Return (false, st)
          else
            Return (true,
                    {| notary_storage := delete id (notary_storage st);
                       cancellation_window := cancellation_window st |})
      end
  end.

(** [id in notary_storage]: the transaction is still anchored. *)
Definition is_anchored (id : string) (st : emulator) : bool :=
  bool_decide (is_Some (notary_storage st !! id)).

End Emulator.

(* ===================================================================== *)
(** ** transactions/transaction_flow.py *)
(* ===================================================================== *)

Module TransactionFlow.

Section Flow.

(** The class [TransactionAnchor] that transaction_flow.py imports from
    transactions/transaction_anchor.py is defined in no file: the anchor
    object and its method [cancel_anchor] are parameters. *)
Context {anchor : Type}.
Variable cancel_anchor : string -> anchor -> result (bool * anchor).

(** [cancel_transaction(tx_id)] *)
Definition cancel_transaction (tx_id : string) (a : anchor) : result (bool * anchor) :=
  cancel_anchor tx_id a.

End Flow.

End TransactionFlow.

(* ===================================================================== *)
(** ** verification/psi_protocol.py and compliance_verification.py *)
(* ===================================================================== *)

Module Compliance.

Definition COMPLIANCE_LEVEL_BASIC : Z := 1.
Definition COMPLIANCE_LEVEL_ADVANCED : Z := 2.

(** The [scheme_type] of a [PSIScheme]: its constructor raises
    [ValueError] for any other. *)
Inductive scheme_type : Type := paillier | schnorr.

Section Check.

(** What the repository does not define: [plain], what [json.loads]
    returns for an entry of a list database; [item], a Python object of an
    address set or of an encrypted set; and the calls on them, each with the
    keys of the instance:
    - [paillier_encrypt i x] is [public_key.encrypt(x)] of phe, as the
      [i]-th encryption of the check (an encryption draws randomness);
    - [schnorr_sign i x] is [schnorr_sign(str(x), private_key)], likewise;
    - [item_eq a b] is the test of [a in [b]]: [a is b or a == b];
    - [unpack a] is the unpacking [r, s = a], which raises for an object
      that is no pair;
    - [schnorr_verify r ref_r ref_s] is
      [schnorr_verify(str(r), ref_r, ref_s, public_key)]. *)
Context {plain item : Type}.
Variable paillier_encrypt : nat -> plain -> result item.
Variable schnorr_sign : nat -> plain -> result item.
Variable item_eq : item -> item -> bool.
Variable unpack : item -> result (item * item).
Variable schnorr_verify : item -> item -> item -> result bool.

(** [encrypt_set(data_set)]; [i] counts the encryptions made before. *)
Fixpoint encrypt_set (scheme : scheme_type) (i : nat) (data_set : list plain)
  : result (list item) :=
  match data_set with
  | [] => Return []
  | x :: rest =>
      Py.bind (match scheme with
               | paillier => paillier_encrypt i x
               | schnorr => schnorr_sign i x
               end) (fun c =>
      Py.bind (encrypt_set scheme (S i) rest) (fun cs =>
      Return (c :: cs)))
  end.

(** The loop of [verify_item] over the reference set. *)
Fixpoint verify_loop (r : item) (reference_set : list item) : result bool :=
  match reference_set with
  | [] => Return false
  | ref :: rest =>
      Py.bind (unpack ref) (fun ref_pair =>
      Py.bind (schnorr_verify r (fst ref_pair) (snd ref_pair)) (fun ok =>
      if ok then Return true else verify_loop r rest))
  end.

(** [verify_item(item, reference_set)] *)
Definition verify_item (i : item) (reference_set : list item) : result bool :=
  Py.bind (unpack i) (fun pair => verify_loop (fst pair) reference_set).

(** [compute_intersection(encrypted_set, reference_set)]: the comprehension
    of the scheme's branch. *)
Fixpoint compute_intersection (scheme : scheme_type)
  (encrypted_set reference_set : list item) : result (list item) :=
  match encrypted_set with
  | [] => Return []
  | i :: rest =>
      Py.bind (match scheme with
               | paillier => Return (existsb (item_eq i) reference_set)
               | schnorr => verify_item i reference_set
               end) (fun keep =>
      Py.bind (compute_intersection scheme rest reference_set) (fun kept =>
      Return (if keep then i :: kept else kept)))
  end.

Record report : Type := Report {
  blacklist_matches : list item;
  whitelist_matches : list item;
  compliance_status : string;
  details : option string
}.

(** [check_compliance(address_set)] for an instance created with
    [scheme_type] and [compliance_level]; [blacklist_db] and [whitelist_db]
    are what [load_blacklist()] and [load_whitelist()] return. *)
Definition check_compliance (scheme : scheme_type) (compliance_level : Z)
  (blacklist_db whitelist_db : list plain) (address_set : list item)
  : result report :=
  Py.bind (encrypt_set scheme 0 blacklist_db) (fun blacklist =>
  Py.bind (encrypt_set scheme (length blacklist_db) whitelist_db) (fun whitelist =>
  Py.bind (compute_intersection scheme address_set blacklist) (fun blacklist_matches =>
  Py.bind (compute_intersection scheme address_set whitelist) (fun whitelist_matches =>
  Return
    {| blacklist_matches := blacklist_matches;
       whitelist_matches := whitelist_matches;
       compliance_status :=
         match blacklist_matches with [] => "Compliant" | _ :: _ => "Non-compliant" end;
       details :=
         if compliance_level =? COMPLIANCE_LEVEL_ADVANCED
         then Some "Advanced verification includes additional checks."
         else None |})))).

(** [verify_transaction(tx)], [tx] given by its two address fields. *)
Definition verify_transaction (scheme : scheme_type) (compliance_level : Z)
  (blacklist_db whitelist_db : list plain) (sender recipient : item) : result bool :=
  let address_set := [sender; recipient] in
  Py.bind (check_compliance scheme compliance_level blacklist_db whitelist_db
             address_set) (fun compliance_report =>
  Return (String.eqb (compliance_status compliance_report) "Compliant")).

End Check.

End Compliance.

(* ===================================================================== *)
(** ** utils/helpers.py, utils/format_utils.py, utils/hash_utils.py *)
(* ===================================================================== *)

Module Utils.

(** [is_hex_string(data)] *)
Definition is_hex_string (data : string) : bool :=
  match Py.int_base16 data with
  | Some _ => true
  | None => false
  end.

(** [is_valid_amount(amount)]: a [str] is no [int]. *)
Definition is_valid_amount (amount : Json.value) : bool :=
  match amount with
  | Json.Int a => a >=? 0
  | Json.Str _ => false
  end.

(** [to_hex(data)]: [binascii.hexlify(data).decode()]. *)
Definition to_hex (data : Py.bytes) : string := Py.hex data.

(** [hash_sha256(data)] *)
Definition hash_sha256 (data : string) : string :=
  Hashlib.sha256_hex (Py.encode data).

End Utils.

(* ===================================================================== *)
(** ** transactions/transaction_utils.py and data/utils.py *)
(* ===================================================================== *)

Module TransactionUtils.

(** [generate_tx_id(tx)] *)
Definition generate_tx_id (tx : Json.dict) : string :=
  let tx_serialized := Py.encode (Json.dumps true tx) in
  Hashlib.sha256_hex tx_serialized.

Definition required_fields : list string :=
  ["sender"; "recipient"; "timestamp"; "amount"; "signature"].

(** [validate_tx_structure(tx)] on a [dict]. *)
Definition validate_tx_structure (tx : Json.dict) : bool :=
  forallb (Json.contains tx) required_fields.

(** [hash_data(data, algorithm="sha256")] *)
Definition hash_data (data algorithm : string) : result string :=
  if String.eqb algorithm "sha256"
  then Return (Hashlib.sha256_hex (Py.encode data))
  else Raise (Py.ValueError ("Unsupported hash algorithm: " +:+ algorithm)).

End TransactionUtils.

Module DataUtils.

(** [format_key(tx_family, key)] *)
Definition format_key (tx_family key : string) : string :=
  tx_family +:+ "_" +:+ key.

(** [hash_transaction(tx)] *)
Definition hash_transaction (tx : Json.dict) : string :=
  let tx_data := Py.encode (Json.dumps true tx) in
  Hashlib.sha256_hex tx_data.

End DataUtils.

(* ===================================================================== *)
(** ** transactions/transaction_anchor.py *)
(* ===================================================================== *)

Module TransactionVerification.

Definition COMPLIANCE_LEVEL_BASIC : Z := 1.
Definition COMPLIANCE_LEVEL_ADVANCED : Z := 2.
Definition MAX_TRANSACTION_AMOUNT : Z := 10 ^ 6.

(** [get_blacklist_addresses()] *)
Definition get_blacklist_addresses : list string :=
  ["0xBlacklistedAddress1"; "0xBlacklistedAddress2"].

(** [v in addresses] for a list of [str]. *)
Definition value_in (v : Json.value) (addresses : list string) : bool :=
  existsb (Json.eq_str v) addresses.

(** [amount <= 0 or amount > MAX_TRANSACTION_AMOUNT]; a [str] amount cannot
    be compared with an [int]. *)
Definition amount_out_of_bounds (amount : Json.value) : result bool :=
  match amount with
  | Json.Int a => Return ((a <=? 0) || (a >? MAX_TRANSACTION_AMOUNT))
  | Json.Str _ =>
      Raise (Py.TypeError "'<=' not supported between instances of 'str' and 'int'")
  end.

(** [compliance_check(tx, level=COMPLIANCE_LEVEL_BASIC)] *)
Definition compliance_check (tx : Json.dict) (level : Z) : result bool :=
  if negb (TransactionUtils.validate_tx_structure tx) then Return false
  else
    Py.bind
      (if level >=? COMPLIANCE_LEVEL_BASIC
       then Py.bind (Json.getitem tx "amount") amount_out_of_bounds
       else Return false)
      (fun rejected =>
         if rejected then Return false
         else if level >=? COMPLIANCE_LEVEL_ADVANCED then
           match Json.getitem tx "recipient" with
           | Return recipient =>
               if value_in recipient get_blacklist_addresses
               then Return false else Return true
           | Raise _ => Return true
           end
         else Return true).

End TransactionVerification.

(* ===================================================================== *)
(** ** encryption/zk_encryption_interface.py *)
(* ===================================================================== *)

Module ZkInterface.

Section Prepare.

(** [encrypt_value(value, public_key)], the Paillier encryption of the phe
    library. *)
Context {public_key_t ciphertext : Type}.
Variable encrypt_value : Z -> public_key_t -> ciphertext.

Record prepared : Type := Prepared {
  sender : string;
  recipient : string;
  encrypted_amount : ciphertext;
  commitment : Pedersen.point;
  random_factor : Z
}.

(** [prepare_encrypted_transaction(sender, recipient, amount, public_key)];
    [draw] is the blinding [create_commitment] draws. *)
Definition prepare_encrypted_transaction (sender recipient : string) (amount : Z)
  (public_key : public_key_t) (draw : Z) : prepared :=
  let encrypted_amount := encrypt_value amount public_key in
  let '(commitment, random_factor) := Pedersen.create_commitment amount None draw in
  {| sender := sender; recipient := recipient;
     encrypted_amount := encrypted_amount;
     commitment := commitment; random_factor := random_factor |}.

End Prepare.

(** [validate_transaction_with_bulletproof(commitment, range_min, range_max)],
    on the commitments of the emulation. *)
Definition validate_transaction_with_bulletproof
  (commitment range_min range_max : Z) : result bool :=
  Py.bind (Bulletproofs.Core.generate_bulletproof commitment range_min range_max)
          (fun proof =>
             Bulletproofs.Core.verify_bulletproof commitment proof range_min range_max).

End ZkInterface.

(* ===================================================================== *)
(** * Properties *)
(* ===================================================================== *)

(** ** The Python primitives on known inputs *)

Module PyFacts.

Example str_of_int_samples :
  map Py.str_of_int [0; 7; -5; 100; 1234567890]
  = ["0"; "7"; "-5"; "100"; "1234567890"].
Proof. reflexivity. Qed.

Example fromhex_samples :
  Py.fromhex "0aFF 10" = Return [10; 255; 16]
  /\ Py.fromhex "zz" = Raise Py.fromhex_error
  /\ Py.fromhex "abc" = Raise Py.fromhex_error
  /\ Py.fromhex "a b" = Raise Py.fromhex_error.
Proof. repeat split. Qed.

(** The FIPS 180-4 test vectors: the empty message, one block, two blocks. *)
Example sha256_vectors :
  Hashlib.sha256_hex (Py.encode "")
  = "e3b0c44298fc1c149afbf4c8996fb92427ae41e4649b934ca495991b7852b855"
  /\ Hashlib.sha256_hex (Py.encode "abc")
     = "ba7816bf8f01cfea414140de5dae2223b00361a396177a9cb410ff61f20015ad"
  /\ Hashlib.sha256_hex
       (Py.encode "abcdbcdecdefdefgefghfghighijhijkijkljklmklmnlmnomnopnopq")
     = "248d6a61d20638b8e5c026930c3e6039a33ce45964ff2167f6ecedd419db06c1".
Proof. repeat split; vm_compute; reflexivity. Qed.

Example dumps_sample :
  Json.dumps true [("sender", Json.Str "S"); ("amount", Json.Int (-100));
                   ("TX_FAMILY", Json.Str "financial_tx")]
  = "{" +:+ Json.quote "TX_FAMILY" +:+ ": " +:+ Json.quote "financial_tx" +:+ ", "
        +:+ Json.quote "amount" +:+ ": -100, "
        +:+ Json.quote "sender" +:+ ": " +:+ Json.quote "S" +:+ "}".
Proof. vm_compute. reflexivity. Qed.

End PyFacts.

(** ** Commitments *)

Module PedersenFacts.

Import Pedersen.

Lemma n_pos : 0 < n.
Proof. reflexivity. Qed.

Lemma commit_sum (v b : Z) :
  point_add (point_mul G v) (point_mul G b) = (v + b) mod n.
Proof.
  unfold point_add, point_mul, G.
  rewrite !Z.mul_1_l, <- Z.add_mod; [reflexivity | discriminate].
Qed.

(** What [verify_commitment] tests: the two scalars only through their sum
    modulo the group order. *)
Lemma verify_commitment_sum (C v b : Z) :
  verify_commitment C v b = true <-> C mod n = (v + b) mod n.
Proof.
  unfold verify_commitment, point_eqb.
  rewrite commit_sum, Z.mod_mod by discriminate.
  apply Z.eqb_eq.
Qed.

(** The blinding [create_commitment] settles on. *)
Lemma blinding_used (value draw : Z) (random_factor : option Z) :
  snd (create_commitment value random_factor draw) = or_else random_factor draw.
Proof. reflexivity. Qed.

(** Every opening with the same sum is accepted, whatever the value. *)
Lemma verify_commitment_same_sum (value blinding draw value' blinding' : Z) :
  blinding <> 0 ->
  (value' + blinding') mod n = (value + blinding) mod n ->
  verify_commitment (fst (create_commitment value (Some blinding) draw)) value' blinding'
  = true.
Proof.
  intros Hb Hsum. apply verify_commitment_sum.
  unfold create_commitment, or_else. cbn [fst].
  destruct (Z.eqb_spec blinding 0) as [->|_]; [congruence|].
  rewrite commit_sum, Z.mod_mod by discriminate. congruence.
Qed.

(** No value is bound: whatever was committed, every other value has a
    blinding that opens the commitment. *)
Lemma any_value_opens (value blinding draw value' : Z) :
  blinding <> 0 ->
  verify_commitment (fst (create_commitment value (Some blinding) draw))
                    value' (value + blinding - value') = true.
Proof.
  intros Hb. apply verify_commitment_same_sum; [exact Hb|].
  f_equal. lia.
Qed.

(** C1.  The code commits with the single generator [G] for both terms, so a
    commitment to value 5 under blinding 7 is also opened by the different
    value 6 under blinding 6: [verify_commitment] returns [True] for a value
    that was not committed to. *)
Theorem verify_commitment_accepts_other_value (draw : Z) :
  let C := fst (create_commitment 5 (Some 7) draw) in
  verify_commitment C 5 7 = true /\ verify_commitment C 6 6 = true.
Proof. split; reflexivity. Qed.

(** C10.  A supplied blinding of [0] is treated as absent: the result is
    that of the call without the argument, the returned blinding is the fresh
    draw (zero only for the one draw [0] among the [n] possible ones), and
    the commitment is opened by [(value, 0)] only for that draw; a nonzero
    supplied blinding is returned unchanged. *)
Theorem zero_blinding_is_redrawn (value draw b : Z) :
  0 <= draw < n ->
  b <> 0 ->
  create_commitment value (Some 0) draw = create_commitment value None draw
  /\ snd (create_commitment value (Some 0) draw) = draw
  /\ (verify_commitment (fst (create_commitment value (Some 0) draw)) value 0 = true
      <-> draw = 0)
  /\ snd (create_commitment value (Some b) draw) = b.
Proof.
  intros Hdraw Hb. repeat split.
  - intros Hv. apply verify_commitment_sum in Hv.
    unfold create_commitment, or_else, generate_random in Hv. cbn [fst Z.eqb] in Hv.
    rewrite commit_sum, Z.mod_mod, Z.add_0_r in Hv by discriminate.
    assert (Hn := n_pos).
    destruct (Z.eq_dec draw 0) as [|Hne]; [assumption|exfalso].
    assert (Hd : ((value + draw) - value) mod n = 0).
    { rewrite Zminus_mod, Hv, Z.sub_diag. reflexivity. }
    replace (value + draw - value) with draw in Hd by lia.
    rewrite Z.mod_small in Hd by lia. contradiction.
  - intros ->. apply verify_commitment_sum.
    unfold create_commitment, or_else, generate_random. cbn [fst Z.eqb].
    rewrite commit_sum, Z.mod_mod by discriminate. reflexivity.
  - rewrite blinding_used. unfold or_else.
    destruct (Z.eqb_spec b 0); [contradiction | reflexivity].
Qed.

Lemma zero_blinding_is_redrawn_witness :
  create_commitment 100 (Some 0) 42 = create_commitment 100 None 42
  /\ snd (create_commitment 100 (Some 0) 42) = 42
  /\ (verify_commitment (fst (create_commitment 100 (Some 0) 42)) 100 0 = true
      <-> 42 = 0)
  /\ snd (create_commitment 100 (Some 9) 42) = 9.
Proof.
  apply (zero_blinding_is_redrawn 100 42 9).
  - split; [discriminate | reflexivity].
  - discriminate.
Defined.

End PedersenFacts.

(** ** Range proofs *)

Module BulletproofsFacts.

Import Bulletproofs.Utils Bulletproofs.Emulation Bulletproofs.RangeProof.

Lemma check_range_spec (c lo hi : Z) :
  check_range c lo hi = true <-> lo <= c <= hi.
Proof. unfold check_range. rewrite andb_true_iff, !Z.leb_le. reflexivity. Qed.

(** The emulated prover refuses a commitment outside the range... *)
Lemma generate_bulletproof_out_of_range (c lo hi : Z) (simulate_correct : bool) :
  ~ lo <= c <= hi ->
  generate_bulletproof c lo hi simulate_correct = Raise out_of_range.
Proof.
  intros Hout. unfold generate_bulletproof.
  destruct (check_range c lo hi) eqn:Hc; [|reflexivity].
  apply check_range_spec in Hc. contradiction.
Qed.

(** ... and returns the challenge of the transcript inside it. *)
Lemma generate_bulletproof_in_range (c lo hi : Z) :
  lo <= c <= hi ->
  generate_bulletproof c lo hi true
  = Return (compute_challenge (transcript c lo hi "valid") 256).
Proof.
  intros Hin. unfold generate_bulletproof.
  apply check_range_spec in Hin. rewrite Hin. reflexivity.
Qed.





(** Membership in an initial segment of the integers, for the tables below. *)
Lemma forallb_below (f : Z -> bool) (k : nat) :
  forallb f (map Z.of_nat (seq 0 k)) = true ->
  forall c, 0 <= c < Z.of_nat k -> f c = true.
Proof.
  intros Hall c Hc. rewrite forallb_forall in Hall. apply Hall.
  apply in_map_iff. exists (Z.to_nat c). split; [lia|].
  apply in_seq. lia.
Qed.

(** The 101 proofs for the triples [(c, 0, 100)] are pairwise distinct, and
    each differs from the proof for [(c, 0, 99)]: checked on the digests. *)
Lemma proofs_0_100_table :
  (let ps := map (fun c => compute_challenge (transcript c 0 100 "valid") 256)
                 (map Z.of_nat (seq 0 101)) in
   let qs := map (fun c => compute_challenge (transcript c 0 99 "valid") 256)
                 (map Z.of_nat (seq 0 100)) in
   forallb (fun i => forallb (fun j => (i =? j)%nat
                                       || negb (nth i ps 0 =? nth j ps 0))
                             (seq 0 101)) (seq 0 101)
   && forallb (fun i => negb (nth i ps 0 =? nth i qs 0)) (seq 0 100)) = true.
Proof. vm_compute. reflexivity. Qed.

Lemma nth_map_below (f : Z -> Z) (k : nat) (c : Z) :
  0 <= c < Z.of_nat k ->
  nth (Z.to_nat c) (map f (map Z.of_nat (seq 0 k))) 0 = f c.
Proof.
  intros Hc. rewrite map_map.
  rewrite nth_indep with (d' := f (Z.of_nat 0%nat))
    by (rewrite length_map, length_seq; lia).
  rewrite (map_nth (fun i => f (Z.of_nat i)) (seq 0 k) 0%nat).
  rewrite seq_nth by lia. simpl. f_equal. lia.
Qed.

Lemma proofs_0_100_distinct (c1 c2 : Z) :
  0 <= c1 <= 100 -> 0 <= c2 <= 100 -> c1 <> c2 ->
  compute_challenge (transcript c1 0 100 "valid") 256
  <> compute_challenge (transcript c2 0 100 "valid") 256.
Proof.
  intros H1 H2 Hne Heq.
  pose proof proofs_0_100_table as T. cbv zeta in T.
  apply andb_true_iff in T. destruct T as [T _].
  rewrite forallb_forall in T.
  specialize (T (Z.to_nat c1)). rewrite forallb_forall in T.
  specialize (T ltac:(apply in_seq; lia) (Z.to_nat c2) ltac:(apply in_seq; lia)).
  rewrite !nth_map_below in T by lia.
  apply orb_true_iff in T. destruct T as [T|T].
  - apply Nat.eqb_eq in T. lia.
  - rewrite Heq, Z.eqb_refl in T. discriminate.
Qed.

Lemma proofs_0_100_vs_0_99 (c : Z) :
  0 <= c <= 99 ->
  compute_challenge (transcript c 0 100 "valid") 256
  <> compute_challenge (transcript c 0 99 "valid") 256.
Proof.
  intros Hc Heq.
  pose proof proofs_0_100_table as T. cbv zeta in T.
  apply andb_true_iff in T. destruct T as [_ T].
  rewrite forallb_forall in T.
  specialize (T (Z.to_nat c) ltac:(apply in_seq; lia)).
  rewrite !nth_map_below in T by lia.
  rewrite Heq, Z.eqb_refl in T. discriminate.
Qed.

(** Where the verifier does return, the proof for [(c1, 0, 100)] is bound to
    its triple: it is rejected for the range [0, 99], for any other
    commitment of the range, and any other proof value is rejected for the
    triple itself. *)
Lemma binding_inside_range (c1 : Z) :
  0 <= c1 <= 100 ->
  let P := compute_challenge (transcript c1 0 100 "valid") 256 in
  generate_bulletproof c1 0 100 true = Return P
  /\ verify_bulletproof c1 P 0 100 true = Return true
  /\ (c1 <= 99 -> verify_bulletproof c1 P 0 99 true = Return false)
  /\ (forall c2, 0 <= c2 <= 100 -> c2 <> c1 ->
        verify_bulletproof c2 P 0 100 true = Return false)
  /\ (forall P', P' <> P -> verify_bulletproof c1 P' 0 100 true = Return false).
Proof.
  intros H1 P. unfold verify_bulletproof.
  split; [apply generate_bulletproof_in_range; lia|].
  split; [|split; [|split]].
  - rewrite generate_bulletproof_in_range by lia. unfold Py.bind.
    subst P. rewrite Z.eqb_refl. reflexivity.
  - intros H99. rewrite generate_bulletproof_in_range by lia. unfold Py.bind.
    destruct (Z.eqb_spec P (compute_challenge (transcript c1 0 99 "valid") 256)) as [E|_];
      [|reflexivity].
    exfalso. apply (proofs_0_100_vs_0_99 c1); [lia | exact E].
  - intros c2 H2 Hne. rewrite generate_bulletproof_in_range by lia. unfold Py.bind.
    destruct (Z.eqb_spec P (compute_challenge (transcript c2 0 100 "valid") 256)) as [E|_];
      [|reflexivity].
    exfalso. apply (proofs_0_100_distinct c1 c2); [lia | lia | congruence | exact E].
  - intros P' Hne. rewrite generate_bulletproof_in_range by lia. unfold Py.bind.
    destruct (Z.eqb_spec P' (compute_challenge (transcript c1 0 100 "valid") 256));
      [contradiction | reflexivity].
Qed.

(** The verifier regenerates the proof, and with it the prover's range
    test: outside the range it raises instead of returning. *)
Lemma verify_bulletproof_out_of_range (c P lo hi : Z) (expected_correct : bool) :
  ~ lo <= c <= hi ->
  verify_bulletproof c P lo hi expected_correct = Raise out_of_range.
Proof.
  intros Hout. unfold verify_bulletproof.
  rewrite generate_bulletproof_out_of_range by assumption. reflexivity.
Qed.

(** C3.  The proof generated for the triple (100, 0, 100) is not answered
    with [False] when checked against (100, 0, 99), nor when checked against
    the commitment 101: in both cases [verify_bulletproof], and with it the
    dispatcher and [validate_range_proof], raise the prover's [ValueError]. *)
Theorem verify_bulletproof_raises_instead_of_false :
  exists P,
    generate_bulletproof 100 0 100 true = Return P
    /\ verify_bulletproof 100 P 0 99 true = Raise out_of_range
    /\ verify_bulletproof 101 P 0 100 true = Raise out_of_range
    /\ validate_range_proof 100 P 0 99 = Raise out_of_range
    /\ validate_range_proof 101 P 0 100 = Raise out_of_range.
Proof.
  exists (compute_challenge (transcript 100 0 100 "valid") 256).
  split; [apply generate_bulletproof_in_range; lia|].
  repeat split; apply verify_bulletproof_out_of_range; lia.
Qed.

End BulletproofsFacts.

(** ** The key-value store *)

Module LmdbFacts.

Import Lmdb.

Lemma compare_refl (a : Py.bytes) : compare a a = Eq.
Proof. induction a as [|x a IH]; simpl; [|rewrite Z.compare_refl]; auto. Qed.

Lemma compare_eq (a b : Py.bytes) : compare a b = Eq -> a = b.
Proof.
  revert b. induction a as [|x a IH]; intros [|y b]; simpl; try discriminate; auto.
  destruct (Z.compare_spec x y); try discriminate.
  intros E. subst. f_equal. auto.
Qed.

Lemma compare_lt_trans (a b c : Py.bytes) :
  compare a b = Lt -> compare b c = Lt -> compare a c = Lt.
Proof.
  revert b c. induction a as [|x a IH]; intros [|y b] [|z c]; simpl;
    try discriminate; auto.
  destruct (Z.compare_spec x y) as [Exy|Hxy|Hxy]; try discriminate;
    destruct (Z.compare_spec y z) as [Eyz|Hyz|Hyz]; try discriminate;
    intros Hab Hbc; subst; rewrite ?Z.compare_refl; eauto;
    rewrite ?(proj2 (Z.compare_lt_iff _ _)) by lia; reflexivity.
Qed.

Section Env.

Context {V : Type}.
Implicit Types (e : env V) (k : Py.bytes) (v : V).

(** A write is read back. *)
Lemma get_write k v e : get k (write k v e) = Some v.
Proof.
  induction e as [|[k' w] e IH]; simpl.
  - rewrite compare_refl. reflexivity.
  - destruct (compare k k') eqn:E; simpl; rewrite ?compare_refl, ?E; auto.
Qed.


(** In a sorted environment every later key is above the first. *)
Lemma sorted_tail k v e : sorted ((k, v) :: e) = true -> sorted e = true.
Proof.
  simpl. destruct e as [|[k' w] e]; [reflexivity|].
  destruct (compare k k'); congruence.
Qed.

Lemma sorted_above k v e :
  sorted ((k, v) :: e) = true ->
  forall k' w, In (k', w) e -> compare k k' = Lt.
Proof.
  revert k v. induction e as [|[k1 w1] e IH]; intros k v Hs k' w Hin; [destruct Hin|].
  assert (Hk : compare k k1 = Lt).
  { simpl in Hs. destruct (compare k k1); congruence. }
  destruct Hin as [Heq|Hin].
  - congruence.
  - eapply compare_lt_trans; [exact Hk|].
    eapply IH; [|exact Hin]. eapply sorted_tail. exact Hs.
Qed.

Lemma get_above k e :
  (forall k' w, In (k', w) e -> compare k k' = Lt) -> get k e = None.
Proof.
  induction e as [|[k1 w1] e IH]; intros Habove; [reflexivity|].
  simpl. rewrite (Habove k1 w1) by (left; reflexivity).
  apply IH. intros k' w Hin. eapply Habove. right. exact Hin.
Qed.

(** After a delete the key is gone, and the other keys are untouched. *)
Lemma get_delete k e : sorted e = true -> get k (snd (delete k e)) = None.
Proof.
  induction e as [|[k1 w1] e IH]; intros Hs; [reflexivity|].
  simpl. destruct (compare k k1) eqn:E; simpl.
  - apply compare_eq in E. subst k1.
    apply get_above. eapply sorted_above. exact Hs.
  - rewrite E. apply IH. eapply sorted_tail. exact Hs.
  - rewrite E. apply IH. eapply sorted_tail. exact Hs.
Qed.

Lemma delete_found k v e : get k e = Some v -> fst (delete k e) = true.
Proof.
  induction e as [|[k1 w1] e IH]; simpl; [discriminate|].
  destruct (compare k k1); simpl; auto.
Qed.

Lemma get_in k v e : get k e = Some v -> In (k, v) e.
Proof.
  induction e as [|[k1 w1] e IH]; simpl; [discriminate|].
  destruct (compare k k1) eqn:E; auto.
  intros [= ->]. apply compare_eq in E. subst. auto.
Qed.

End Env.

End LmdbFacts.

(** ** The ledger *)

Module LedgerFacts.

Import Json Lmdb Ledger LmdbFacts.

(** [save_transaction] fails on a missing family field or on a key that
    LMDB refuses, and on nothing else. *)
Lemma save_transaction_failure (tx : dict) (db : ledger) (e : Py.exn) :
  save_transaction tx db = Raise e ->
  e = Py.KeyError "TX_FAMILY" \/ e = Py.BadValsizeError.
Proof.
  unfold save_transaction.
  assert (H : forall d, getitem d "TX_FAMILY" = Raise e -> e = Py.KeyError "TX_FAMILY").
  { induction d as [|[k v] d IH]; simpl; [congruence|].
    destruct (String.eqb k "TX_FAMILY"); [discriminate | exact IH]. }
  destruct (getitem tx "TX_FAMILY") eqn:E; unfold Py.bind; [|intros [= <-]; eauto].
  unfold put. destruct (valid_key _); [discriminate | intros [= <-]; auto].
Qed.



(** A key over the size limit is refused whatever the store holds. *)
Lemma save_transaction_long_key (tx : dict) (db : ledger) (family : value) :
  getitem tx "TX_FAMILY" = Return family ->
  (max_key_size < length (tx_key (format family) (_generate_tx_id tx)))%nat ->
  save_transaction tx db = Raise Py.BadValsizeError.
Proof.
  intros Hfam Hlong. unfold save_transaction. rewrite Hfam. unfold Py.bind, put, valid_key.
  rewrite (proj2 (Nat.leb_gt _ _) Hlong), andb_false_r. reflexivity.
Qed.




(** A record without the key ["TX_FAMILY"], as the orchestrator builds it
    (its family is under ["tx_family"], its header fields are nested), is not
    stored at all. *)
Lemma save_transaction_needs_family :
  save_transaction [("tx_id", Str "1f"); ("tx_family", Str "financial")] []
  = Raise (Py.KeyError "TX_FAMILY").
Proof. reflexivity. Qed.

(** The loop of [get_balance] on records that carry the fields it reads. *)
Lemma balance_step_well_formed (address : string) (prefix : Py.bytes)
  (balance : Z) (key : Py.bytes) (tx : dict) :
  well_formed tx = true ->
  balance_step address prefix balance (key, tx)
  = Return
      (if startswith key prefix then
         if field_is tx "recipient" address then balance + amount_of tx
         else if field_is tx "sender" address then balance - amount_of tx
         else balance
       else balance).
Proof.
  unfold well_formed, contains, balance_step, field_is, amount_of.
  intros Hwf.
  apply andb_true_iff in Hwf as [Hwf Ha]. apply andb_true_iff in Hwf as [Hr Hs].
  destruct (startswith key prefix); [|reflexivity].
  destruct (getitem tx "recipient") as [r|]; [|discriminate Hr].
  destruct (getitem tx "sender") as [s|]; [|discriminate Hs].
  destruct (getitem tx "amount") as [[a|a]|]; try discriminate Ha.
  unfold Py.bind, add_amount.
  destruct (eq_str r address); [f_equal; lia|].
  destruct (eq_str s address); [f_equal; lia | reflexivity].
Qed.

Lemma balance_loop_agrees (address : string) (prefix : Py.bytes) (db : ledger) :
  (forall key tx, In (key, tx) db -> startswith key prefix = true ->
     well_formed tx = true
     /\ (field_is tx "recipient" address && field_is tx "sender" address = false)) ->
  forall balance,
  balance_loop address prefix balance db
  = Return (balance +
            fold_right (fun entry acc =>
                          if startswith (fst entry) prefix
                          then spec_contribution address (snd entry) + acc else acc)
                       0 db).
Proof.
  induction db as [|[key tx] db IH]; intros Hdb balance;
    cbn [balance_loop fold_right fst snd].
  - f_equal. lia.
  - destruct (startswith key prefix) eqn:Hp.
    + destruct (Hdb key tx (or_introl eq_refl) Hp) as [Hwf Hself].
      rewrite balance_step_well_formed by assumption. rewrite Hp. unfold Py.bind.
      rewrite IH by (intros k t Hin; apply Hdb; right; exact Hin).
      f_equal. unfold spec_contribution.
      destruct (field_is tx "recipient" address), (field_is tx "sender" address);
        try discriminate; lia.
    + unfold balance_step. rewrite Hp. unfold Py.bind.
      apply IH. intros k t Hin; apply Hdb; right; exact Hin.
Qed.

(** On a family partition of well-formed records none of which has the
    address as both sender and recipient, [get_balance] is the sum the
    specification describes. *)
Lemma get_balance_agrees (address tx_family : string) (db : ledger) :
  (forall key tx, In (key, tx) db ->
     startswith key (Py.encode (tx_family +:+ "_")) = true ->
     well_formed tx = true
     /\ (field_is tx "recipient" address && field_is tx "sender" address = false)) ->
  get_balance address tx_family db = Return (spec_balance address tx_family db).
Proof.
  intros Hdb. unfold get_balance, spec_balance.
  rewrite balance_loop_agrees by exact Hdb. reflexivity.
Qed.

(** The end-to-end scenario: one stored transfer of 100 from S to R. *)
Lemma balances_after_one_transfer :
  let tx := [("TX_FAMILY", Str "financial"); ("sender", Str "S");
             ("recipient", Str "R"); ("amount", Int 100)] in
  exists db,
    save_transaction tx [] = Return db
    /\ get_balance "R" "financial" db = Return 100
    /\ get_balance "S" "financial" db = Return (-100).
Proof. eexists. split; [vm_compute; reflexivity|]. split; vm_compute; reflexivity. Qed.

(** C9.  For a stored record whose sender and recipient are both the queried
    address, the [elif] skips the debit: [get_balance] returns [+100] where
    the sum of [+amount] for the recipient and [-amount] for the sender
    is [0]. *)
Theorem get_balance_self_transfer :
  let tx := [("TX_FAMILY", Str "financial_tx"); ("sender", Str "A");
             ("recipient", Str "A"); ("amount", Int 100)] in
  exists db,
    save_transaction tx [] = Return db
    /\ get_balance "A" "financial_tx" db = Return 100
    /\ spec_balance "A" "financial_tx" db = 0.
Proof. eexists. split; [vm_compute; reflexivity|]. split; vm_compute; reflexivity. Qed.

End LedgerFacts.

(** ** The notary store *)

Module NotaryFacts.

Import Lmdb Notary LmdbFacts.

(** What [get_notary_record] returns is never past its expiry. *)
Lemma get_notary_record_unexpired (record_id : string) (now : datetime)
  (db : notary) (r : record) :
  fst (get_notary_record record_id now db) = Some r -> expired now r = false.
Proof.
  unfold get_notary_record, expired.
  destruct (get (record_key record_id) db) as [r0|]; [|discriminate].
  destruct (expires_at r0) as [e|] eqn:He.
  - destruct (Z.gtb_spec now e); simpl; [discriminate|].
    intros [= <-]. rewrite He. apply Z.ltb_ge. lia.
  - simpl. intros [= <-]. rewrite He. reflexivity.
Qed.

(** Every record the default listing returns was unexpired at the reading
    of the clock it was tested against. *)
Lemma list_loop_unexpired (clock : nat -> datetime) (cursor : notary) :
  forall (tick : nat) (r : record),
  In r (list_loop false clock tick cursor) ->
  expires_at r = None \/ exists i, expired (clock i) r = false.
Proof.
  induction cursor as [|[key r0] cursor IH]; intros tick r;
    cbn [list_loop negb]; [intros []|].
  destruct (startswith key (Py.encode "notary_")); [|apply IH].
  destruct (expires_at r0) as [e|] eqn:He.
  - destruct (Z.gtb_spec (clock tick) e); [apply IH|].
    intros Hin. apply in_inv in Hin. destruct Hin as [<-|Hin]; [|eapply IH; exact Hin].
    right. exists tick. unfold expired. rewrite He. apply Z.ltb_ge. lia.
  - intros Hin. apply in_inv in Hin.
    destruct Hin as [<-|Hin]; [left; exact He | eapply IH; exact Hin].
Qed.

(** C7.  A stored record whose [expires_at] is earlier than the current
    time is absent from the reads: [get_notary_record] returns [None] and
    deletes the entry, so that the key is no longer in the store, and the
    default [list_notary_records] omits the record, without any explicit
    delete; and whatever these reads return is not past its expiry. *)
Theorem expired_record_is_absent (db : notary) (record_id : string)
  (r : record) (e now : datetime) (clock : nat -> datetime) :
  sorted db = true ->
  get (record_key record_id) db = Some r ->
  expires_at r = Some e ->
  e < now ->
  (forall i, e < clock i) ->
  get_notary_record record_id now db
    = (None, snd (delete_notary_record record_id db))
  /\ fst (delete_notary_record record_id db) = true
  /\ get (record_key record_id) (snd (get_notary_record record_id now db)) = None
  /\ ~ In r (list_notary_records false clock db)
  /\ (forall id r', fst (get_notary_record id now db) = Some r' ->
        expired now r' = false)
  /\ (forall r', In r' (list_notary_records false (fun _ => now) db) ->
        expired now r' = false).
Proof.
  intros Hsorted Hget He Hnow Hclock.
  assert (Hres : get_notary_record record_id now db
                 = (None, snd (delete_notary_record record_id db))).
  { unfold get_notary_record. rewrite Hget, He.
    destruct (Z.gtb_spec now e); [reflexivity | lia]. }
  split; [exact Hres|].
  split; [eapply delete_found; exact Hget|].
  split; [rewrite Hres; apply get_delete; exact Hsorted|].
  split; [|split].
  - intros Hin. apply list_loop_unexpired in Hin.
    destruct Hin as [Hnone|[i Hi]]; [congruence|].
    unfold expired in Hi. rewrite He in Hi.
    apply Z.ltb_ge in Hi. specialize (Hclock i). lia.
  - intros id r'. apply get_notary_record_unexpired.
  - intros r' Hin. apply list_loop_unexpired in Hin.
    destruct Hin as [Hnone|[i Hi]]; [|exact Hi].
    unfold expired. rewrite Hnone. reflexivity.
Qed.

Lemma expired_record_is_absent_witness :
  let r := {| content := "deed"; signature := "sig"; timestamp := 1000;
              expires_at := Some 2000 |} in
  let db := [(record_key "ab", r)] in
  get_notary_record "ab" 2001 db = (None, snd (delete_notary_record "ab" db))
  /\ fst (delete_notary_record "ab" db) = true
  /\ get (record_key "ab") (snd (get_notary_record "ab" 2001 db)) = None
  /\ ~ In r (list_notary_records false (fun _ => 2001) db)
  /\ (forall id r', fst (get_notary_record id 2001 db) = Some r' ->
        expired 2001 r' = false)
  /\ (forall r', In r' (list_notary_records false (fun _ => 2001) db) ->
        expired 2001 r' = false).
Proof.
  apply (expired_record_is_absent
           [(record_key "ab",
             {| content := "deed"; signature := "sig"; timestamp := 1000;
                expires_at := Some 2000 |})]
           "ab" _ 2000 2001 (fun _ => 2001)).
  - reflexivity.
  - vm_compute. reflexivity.
  - reflexivity.
  - lia.
  - intros _. lia.
Defined.

(** With [include_expired=True] the listing is asked for the expired
    records and returns them. *)
Lemma list_notary_records_include_expired :
  let r := {| content := "deed"; signature := "sig"; timestamp := 1000;
              expires_at := Some 2000 |} in
  list_notary_records true (fun _ => 2001) [(record_key "ab", r)] = [r]
  /\ list_notary_records false (fun _ => 2001) [(record_key "ab", r)] = [].
Proof. split; vm_compute; reflexivity. Qed.

End NotaryFacts.

(** ** Signatures *)

Module SignatureFacts.

Import Signature.

Section Verify.

Context {transaction verifying_key : Type}.
Variable message_of : transaction -> result Py.bytes.
Variable from_string : Py.bytes -> option verifying_key.
Variable ecdsa_verify : verifying_key -> Py.bytes -> Py.bytes -> bool.

Local Abbreviation verify := (verify_signature message_of from_string ecdsa_verify).

(** Where the message digest is obtained, a well-formed key and a
    hexadecimal signature get the boolean answer of the library, [False]
    for a bad signature. *)
Lemma verify_signature_returns (tx : transaction) (public_key signature : string)
  (key_bytes signature_bytes message : Py.bytes) (vk : verifying_key) :
  Py.fromhex public_key = Return key_bytes ->
  from_string key_bytes = Some vk ->
  message_of tx = Return message ->
  Py.fromhex signature = Return signature_bytes ->
  verify tx public_key signature
  = Return (ecdsa_verify vk signature_bytes message).
Proof.
  intros Hk Hvk Hm Hs. unfold verify_signature.
  rewrite Hk. unfold Py.bind at 1. rewrite Hvk, Hm. unfold Py.bind at 1.
  rewrite Hs. unfold Py.bind.
  destruct (ecdsa_verify vk signature_bytes message); reflexivity.
Qed.

(** With a well-formed key the exception of the digest leaves the
    function, before the signature is looked at. *)
Lemma verify_signature_digest_error (tx : transaction) (public_key signature : string)
  (key_bytes : Py.bytes) (vk : verifying_key) (e : Py.exn) :
  Py.fromhex public_key = Return key_bytes ->
  from_string key_bytes = Some vk ->
  message_of tx = Raise e ->
  verify tx public_key signature = Raise e.
Proof.
  intros Hk Hvk Hm. unfold verify_signature.
  rewrite Hk. unfold Py.bind at 1. rewrite Hvk, Hm. reflexivity.
Qed.

(** A signature that is not hexadecimal is not answered with [False]: the
    [ValueError] of [bytes.fromhex] leaves the function. *)
Lemma verify_signature_non_hex (tx : transaction) (public_key signature : string)
  (key_bytes message : Py.bytes) (vk : verifying_key) (e : Py.exn) :
  Py.fromhex public_key = Return key_bytes ->
  from_string key_bytes = Some vk ->
  message_of tx = Return message ->
  Py.fromhex signature = Raise e ->
  verify tx public_key signature = Raise e.
Proof.
  intros Hk Hvk Hm Hs. unfold verify_signature.
  rewrite Hk. unfold Py.bind at 1. rewrite Hvk, Hm. unfold Py.bind at 1.
  rewrite Hs. reflexivity.
Qed.

(** C5.  On the malformed signature "zz" [verify_signature] raises, for
    every transaction and every public key, whatever the library answers:
    it does not return [False]. *)
Theorem verify_signature_raises_on_malformed
  (tx : transaction) (public_key : string) :
  Py.raises (verify tx public_key "zz") = true
  /\ verify tx public_key "zz" <> Return false.
Proof.
  assert (Hzz : Py.fromhex "zz" = Raise Py.fromhex_error) by reflexivity.
  assert (H : exists e, verify tx public_key "zz" = Raise e).
  { unfold verify_signature. rewrite Hzz.
    destruct (Py.fromhex public_key) as [key_bytes|]; unfold Py.bind at 1;
      cbv beta iota; [|eauto].
    destruct (from_string key_bytes); [|eauto].
    destruct (message_of tx); unfold Py.bind; cbv beta iota; eauto. }
  destruct H as [e ->]. split; [reflexivity | discriminate].
Qed.

End Verify.

End SignatureFacts.

(** ** Rounding to a float *)

Module FloatFacts.

Import Float.

Local Abbreviation is_value x q :=
  (match x with Finite v => Qeq_bool v q | Infinity _ => false end).

(** The rounding on known values: 0.1; 0.3 - 0.1 = 0.19999999999999998;
    120.000000001 - 1e-9 = 120.0; an exact difference of two readings of
    the present epoch; a tie, which goes to the even neighbour; half the
    least positive float, which goes to zero; and an overflow. *)
Example sub_samples :
  is_value (of_Q (1 # 10)) (3602879701896397 # 36028797018963968) = true
  /\ is_value (sub (5404319552844595 # 18014398509481984)
                  (3602879701896397 # 36028797018963968))
              (7205759403792793 # 36028797018963968) = true
  /\ is_value (sub (8444249301390049 # 70368744177664)
                  (4835703278458517 # 4835703278458516698824704))
              (120 # 1) = true
  /\ is_value (sub (3400000241 # 2) (6800000001 # 4)) (481 # 4) = true
  /\ is_value (of_Q (2 ^ 53 + 1 # 1)) (2 ^ 53 # 1) = true
  /\ is_value (of_Q (1 # 2 ^ 1075)) 0 = true
  /\ sub (2 ^ 1024 - 2 ^ 971 # 1) (- (2 ^ 1024 - 2 ^ 971) # 1) = Infinity false.
Proof. vm_compute. repeat split. Qed.

Lemma div_le_cross (n1 d1 n2 d2 : Z) :
  0 < d1 -> 0 < d2 -> n1 * d2 <= n2 * d1 -> n1 / d1 <= n2 / d2.
Proof.
  intros H1 H2 H. apply Z.div_le_lower_bound; [exact H2|].
  pose proof (Z.mul_div_le n1 d1 H1) as Hq.
  assert (Hc : d1 * (d2 * (n1 / d1)) <= d1 * n2) by nia.
  apply Z.mul_le_mono_pos_l in Hc; assumption.
Qed.

Lemma nearest_even_mono (n1 d1 n2 d2 : Z) :
  0 < d1 -> 0 < d2 -> n1 * d2 <= n2 * d1 ->
  nearest_even n1 d1 <= nearest_even n2 d2.
Proof.
  intros H1 H2 H.
  pose proof (div_le_cross n1 d1 n2 d2 H1 H2 H) as Hq.
  pose proof (Z.div_mod n1 d1 ltac:(lia)) as E1.
  pose proof (Z.div_mod n2 d2 ltac:(lia)) as E2.
  pose proof (Z.mod_pos_bound n1 d1 H1) as B1.
  pose proof (Z.mod_pos_bound n2 d2 H2) as B2.
  unfold nearest_even. cbv zeta.
  set (q1 := n1 / d1) in *. set (q2 := n2 / d2) in *.
  set (r1 := n1 mod d1) in *. set (r2 := n2 mod d2) in *.
  clearbody q1 q2 r1 r2.
  assert (Hcase : q1 < q2 \/ (q1 = q2 /\ r1 * d2 <= r2 * d1)).
  { destruct (Z.eq_dec q1 q2) as [Heq|Hne]; [right | left; lia].
    split; [exact Heq|]. subst q2. rewrite E1, E2 in H. nia. }
  destruct (Z.ltb_spec (2 * r1) d1), (Z.ltb_spec (2 * r2) d2),
    (Z.ltb_spec d1 (2 * r1)), (Z.ltb_spec d2 (2 * r2));
    try lia;
    destruct Hcase as [Hlt|[Heq Hr]];
    try (destruct (Z.even q1), (Z.even q2); lia);
    try (exfalso; nia);
    try (rewrite Heq; destruct (Z.even q2); lia).
Qed.

Lemma nearest_even_exact (m d : Z) : 0 < d -> nearest_even (m * d) d = m.
Proof.
  intros Hd. unfold nearest_even. cbv zeta.
  rewrite Z.div_mul, Z.mod_mul by lia.
  destruct (Z.ltb_spec (2 * 0) d); [reflexivity | lia].
Qed.

Lemma nearest_even_nonneg (n d : Z) : 0 <= n -> 0 < d -> 0 <= nearest_even n d.
Proof.
  intros Hn Hd. rewrite <- (nearest_even_exact 0 d Hd).
  apply nearest_even_mono; lia.
Qed.

Lemma exponent_mono (n1 d1 n2 d2 : Z) :
  0 < n1 -> 0 < d1 -> 0 < n2 -> 0 < d2 -> n1 * d2 <= n2 * d1 ->
  exponent n1 d1 <= exponent n2 d2.
Proof.
  intros Hn1 Hd1 Hn2 Hd2 H. unfold exponent.
  destruct (Z.leb_spec d1 n1), (Z.leb_spec d2 n2).
  - apply Z.log2_le_mono. apply div_le_cross; assumption.
  - exfalso. nia.
  - pose proof (Z.log2_up_nonneg ((d1 + n1 - 1) / n1)).
    pose proof (Z.log2_nonneg (n2 / d2)). lia.
  - apply -> Z.opp_le_mono. apply Z.log2_up_le_mono.
    apply Z.div_le_lower_bound; [lia|].
    pose proof (Z.mul_div_le (d2 + n2 - 1) n2 Hn2) as Hc.
    set (c := (d2 + n2 - 1) / n2) in *. clearbody c.
    assert (Hlt : (c - 1) * n1 < d1).
    { apply (Z.mul_lt_mono_pos_r n2); [lia|].
      apply Z.le_lt_trans with (n1 * (d2 - 1)); [|nia].
      replace ((c - 1) * n1 * n2) with (n1 * ((c - 1) * n2)) by ring.
      apply Z.mul_le_mono_nonneg_l; lia. }
    lia.
Qed.

Lemma pow2_pos (k : Z) : 0 < 2 ^ k \/ k < 0.
Proof. destruct (Z.lt_ge_cases k 0); [right; assumption | left; apply Z.pow_pos_nonneg; lia]. Qed.

Lemma pow2_split (a b : Z) : 0 <= a -> 0 <= b -> 2 ^ (a + b) = 2 ^ a * 2 ^ b.
Proof. intros. apply Z.pow_add_r; assumption. Qed.

(** Rounding does not cross a float: what lies at or below the float [w]
    is rounded to a value at or below [w]. *)
Lemma round_pos_le (n nw : Z) (d dw : positive) (w : Q) :
  0 < n -> 0 < nw ->
  n * Zpos dw <= nw * Zpos d ->
  round_pos nw (Zpos dw) = Some w ->
  (w == nw # dw)%Q ->
  exists q, round_pos n (Zpos d) = Some q /\ (q <= w)%Q.
Proof.
  intros Hn Hnw Hle Hw Heq.
  assert (He : exponent n (Zpos d) <= exponent nw (Zpos dw))
    by (apply exponent_mono; lia).
  unfold round_pos in *. cbv zeta in *.
  set (k := Z.max (exponent n (Zpos d)) (-1022) - 52).
  set (kw := Z.max (exponent nw (Zpos dw)) (-1022) - 52) in *.
  assert (Hk : k <= kw) by (unfold k, kw; lia).
  clearbody k kw. clear He.
  destruct (Z.leb_spec 0 kw) as [Hkw|Hkw].
  - (* the float is a multiple of 2 ^ kw *)
    set (mw := nearest_even nw (Zpos dw * 2 ^ kw)) in *. clearbody mw.
    destruct (Z.leb_spec (2 ^ 1024) (mw * 2 ^ kw)) as [|Hfin]; [discriminate|].
    injection Hw as <-.
    unfold Qeq in Heq. cbn [Qnum Qden] in Heq.
    assert (Hpw : 0 < 2 ^ kw) by (apply Z.pow_pos_nonneg; lia).
    assert (Hnd : n <= mw * 2 ^ kw * Zpos d).
    { apply (Z.mul_le_mono_pos_r _ _ (Zpos dw)); [lia|]. nia. }
    destruct (Z.leb_spec 0 k) as [Hk0|Hk0].
    + assert (Hp : 0 < 2 ^ k) by (apply Z.pow_pos_nonneg; lia).
      assert (Hs : 2 ^ kw = 2 ^ (kw - k) * 2 ^ k).
      { rewrite <- pow2_split by lia. f_equal. lia. }
      assert (Hm : nearest_even n (Zpos d * 2 ^ k) <= mw * 2 ^ (kw - k)).
      { rewrite <- (nearest_even_exact (mw * 2 ^ (kw - k)) (Zpos d * 2 ^ k)) by lia.
        apply nearest_even_mono; [lia | lia |].
        apply Z.mul_le_mono_nonneg_r; [lia|]. rewrite Hs in Hnd. nia. }
      set (m := nearest_even n (Zpos d * 2 ^ k)) in *. clearbody m.
      assert (Hv : m * 2 ^ k <= mw * 2 ^ kw) by (rewrite Hs; nia).
      destruct (Z.leb_spec (2 ^ 1024) (m * 2 ^ k)); [lia|].
      eexists. split; [reflexivity|].
      unfold Qle. cbn [Qnum Qden]. lia.
    + assert (Hp : 0 < 2 ^ (- k)) by (apply Z.pow_pos_nonneg; lia).
      assert (Hm : nearest_even (n * 2 ^ (- k)) (Zpos d) <= mw * 2 ^ kw * 2 ^ (- k)).
      { rewrite <- (nearest_even_exact (mw * 2 ^ kw * 2 ^ (- k)) (Zpos d)) by lia.
        apply nearest_even_mono; [lia | lia |].
        apply Z.mul_le_mono_nonneg_r; [lia|]. nia. }
      set (m := nearest_even (n * 2 ^ (- k)) (Zpos d)) in *. clearbody m.
      eexists. split; [reflexivity|].
      unfold Qle. cbn [Qnum Qden]. rewrite Z2Pos.id by exact Hp. lia.
  - (* the float is a multiple of 2 ^ kw, with kw < 0 *)
    set (mw := nearest_even (nw * 2 ^ (- kw)) (Zpos dw)) in *. clearbody mw.
    injection Hw as <-.
    assert (Hpw : 0 < 2 ^ (- kw)) by (apply Z.pow_pos_nonneg; lia).
    unfold Qeq in Heq. cbn [Qnum Qden] in Heq. rewrite Z2Pos.id in Heq by exact Hpw.
    destruct (Z.leb_spec 0 k) as [Hk0|Hk0]; [lia|].
    assert (Hp : 0 < 2 ^ (- k)) by (apply Z.pow_pos_nonneg; lia).
    assert (Hd : 0 < 2 ^ (kw - k)) by (apply Z.pow_pos_nonneg; lia).
    assert (Hs : 2 ^ (- k) = 2 ^ (kw - k) * 2 ^ (- kw)).
    { rewrite <- pow2_split by lia. f_equal. lia. }
    assert (Hm : nearest_even (n * 2 ^ (- k)) (Zpos d) <= mw * 2 ^ (kw - k)).
    { rewrite <- (nearest_even_exact (mw * 2 ^ (kw - k)) (Zpos d)) by lia.
      apply nearest_even_mono; [lia | lia |].
      apply Z.mul_le_mono_nonneg_r; [lia|].
      apply (Z.mul_le_mono_pos_r _ _ (Zpos dw)); [lia|].
      rewrite Hs.
      assert (H1 : n * Zpos dw * 2 ^ (- kw) <= nw * Zpos d * 2 ^ (- kw))
        by (apply Z.mul_le_mono_nonneg_r; lia).
      assert (H2 : nw * Zpos d * 2 ^ (- kw) = mw * Zpos dw * Zpos d) by nia.
      replace (n * (2 ^ (kw - k) * 2 ^ (- kw)) * Zpos dw)
        with (n * Zpos dw * 2 ^ (- kw) * 2 ^ (kw - k)) by ring.
      replace (mw * 2 ^ (kw - k) * Zpos d * Zpos dw)
        with (mw * Zpos dw * Zpos d * 2 ^ (kw - k)) by ring.
      apply Z.mul_le_mono_nonneg_r; lia. }
    set (m := nearest_even (n * 2 ^ (- k)) (Zpos d)) in *. clearbody m.
    eexists. split; [reflexivity|].
    unfold Qle. cbn [Qnum Qden]. rewrite !Z2Pos.id by assumption.
    rewrite Hs. nia.
Qed.

Lemma round_pos_nonneg (n : Z) (d : positive) (q : Q) :
  0 < n -> round_pos n (Zpos d) = Some q -> (0 <= q)%Q.
Proof.
  unfold round_pos. cbv zeta. intros Hn.
  set (k := Z.max (exponent n (Zpos d)) (-1022) - 52). clearbody k.
  destruct (Z.leb_spec 0 k) as [Hk|Hk].
  - assert (Hp : 0 < 2 ^ k) by (apply Z.pow_pos_nonneg; lia).
    pose proof (nearest_even_nonneg n (Zpos d * 2 ^ k) ltac:(lia) ltac:(lia)) as Hm.
    set (m := nearest_even n (Zpos d * 2 ^ k)) in *. clearbody m.
    destruct (2 ^ 1024 <=? _); [discriminate|]. intros [= <-].
    unfold Qle. cbn [Qnum Qden]. nia.
  - assert (Hp : 0 < 2 ^ (- k)) by (apply Z.pow_pos_nonneg; lia).
    pose proof (nearest_even_nonneg (n * 2 ^ (- k)) (Zpos d) ltac:(nia) ltac:(lia)) as Hm.
    intros [= <-]. unfold Qle. cbn [Qnum Qden]. lia.
Qed.

(** A float subtraction does not overshoot a float bound that the exact
    difference respects. *)
Lemma of_Q_le (x w : Q) :
  (0 <= w)%Q -> is_float w = true -> (x <= w)%Q -> gt (of_Q x) w = false.
Proof.
  intros H0 Hw Hx. unfold of_Q.
  destruct x as [nx dx]. cbn [Qnum Qden]. destruct nx as [|nx|nx].
  - cbn [gt]. apply negb_false_iff, Qle_bool_iff. exact H0.
  - unfold is_float, of_Q in Hw. destruct w as [nw dw]. cbn [Qnum Qden] in Hw.
    unfold Qle in Hx. cbn [Qnum Qden] in Hx.
    destruct nw as [|nw|nw]; [lia| |lia].
    destruct (round_pos (Zpos nw) (Zpos dw)) as [v|] eqn:Hv; [|discriminate].
    apply Qeq_bool_iff in Hw.
    destruct (round_pos_le (Zpos nx) (Zpos nw) dx dw v) as (q & -> & Hq);
      [lia | lia | exact Hx | exact Hv | exact Hw |].
    cbn [gt]. apply negb_false_iff, Qle_bool_iff.
    rewrite <- Hw. exact Hq.
  - destruct (round_pos (Zpos nx) (Zpos dx)) as [q|] eqn:Hq; [|reflexivity].
    cbn [gt]. apply negb_false_iff, Qle_bool_iff.
    pose proof (round_pos_nonneg (Zpos nx) dx q (Pos2Z.is_pos nx) Hq) as Hq0.
    apply Qle_trans with 0%Q; [|exact H0].
    apply (Qopp_le_compat 0 q) in Hq0. exact Hq0.
Qed.

End FloatFacts.

(** ** The cancellation window *)

Module EmulatorFacts.

Import Emulator.

Lemma gt_spec (a b : Q) : Float.gt (Float.Finite a) b = true <-> (b < a)%Q.
Proof.
  unfold Float.gt. rewrite negb_true_iff. split.
  - intros Hle. apply Qnot_le_lt. intros Hab.
    apply Qle_bool_iff in Hab. congruence.
  - intros Hlt. destruct (Qle_bool a b) eqn:E; [|reflexivity].
    apply Qle_bool_iff in E. exfalso. exact (Qlt_not_le _ _ Hlt E).
Qed.

Lemma gt_false (a b : Q) : Float.gt (Float.Finite a) b = false <-> (a <= b)%Q.
Proof.
  unfold Float.gt. rewrite negb_false_iff. apply Qle_bool_iff.
Qed.

(** Where the exact difference is a float, the subtraction returns it. *)
Lemma sub_exact (a b : Q) :
  Float.is_float (a - b) = true ->
  exists d, Float.sub a b = Float.Finite d /\ (d == a - b)%Q.
Proof.
  unfold Float.is_float, Float.sub.
  destruct (Float.of_Q (a - b)) as [d|]; [|discriminate].
  intros H. exists d. split; [reflexivity | apply Qeq_bool_iff; exact H].
Qed.

(** An anchored transaction is found in the notary storage with the
    reading of the clock at anchoring time. *)
Lemma anchor_transaction_stores (tx : transaction) (t0 : Q) (st : emulator) :
  notary_storage (snd (anchor_transaction tx t0 st)) !! tx_id tx
  = Some {| tx_id := tx_id tx; body := body tx; anchored := Some t0 |}.
Proof. simpl. apply lookup_insert_eq. Qed.

Lemma is_anchored_delete (id : string) (st : emulator) :
  is_anchored id {| notary_storage := delete id (notary_storage st);
                    cancellation_window := cancellation_window st |} = false.
Proof.
  unfold is_anchored. cbn [notary_storage].
  rewrite lookup_delete_eq. apply bool_decide_eq_false. intros [x Hx]. discriminate.
Qed.

(** The orchestrator adds nothing to the anchor's answer. *)
Lemma flow_cancel_transaction_delegates {anchor : Type}
  (cancel_anchor : string -> anchor -> result (bool * anchor))
  (tx_id : string) (a : anchor) :
  TransactionFlow.cancel_transaction cancel_anchor tx_id a = cancel_anchor tx_id a.
Proof. reflexivity. Qed.

(** C6 (as the code has it).  For a transaction anchored at [t0], with
    window [W], [cancel_transaction] at the reading [now] decides on the
    float difference of the two readings: above [W] it returns [False] and
    leaves the storage as it is, the anchor in place; otherwise it returns
    [True] and removes the anchor.  A refusal is a returned value, not an
    error.  Whenever the elapsed time [now - t0] is at most [W] (a float
    that is not negative), the cancellation succeeds; and where the
    difference of the two readings is itself a float, a cancellation after
    the window is refused. *)
Theorem cancellation_window_respected
  (id : string) (tx : transaction) (t0 now : Q) (st : emulator) :
  notary_storage st !! id = Some tx ->
  anchored tx = Some t0 ->
  let W := cancellation_window st in
  let cancelled_st :=
    {| notary_storage := delete id (notary_storage st);
       cancellation_window := cancellation_window st |} in
  cancel_transaction id now st
  = (if Float.gt (Float.sub now t0) W
     then Return (false, st) else Return (true, cancelled_st))
  /\ is_anchored id cancelled_st = false
  /\ is_anchored id st = true
  /\ (Float.is_float W = true -> (0 <= W)%Q -> (now - t0 <= W)%Q ->
        cancel_transaction id now st = Return (true, cancelled_st))
  /\ (Float.is_float (now - t0) = true -> (W < now - t0)%Q ->
        cancel_transaction id now st = Return (false, st)).
Proof.
  intros Hlook Ht0 W cancelled_st.
  assert (Hrule : cancel_transaction id now st
                  = if Float.gt (Float.sub now t0) W
                    then Return (false, st) else Return (true, cancelled_st)).
  { unfold cancel_transaction. rewrite Hlook, Ht0. reflexivity. }
  split; [exact Hrule|]. split; [apply is_anchored_delete|]. split; [|split].
  - unfold is_anchored. rewrite Hlook. apply bool_decide_eq_true. eauto.
  - intros HW H0 Hle. rewrite Hrule.
    unfold Float.sub. rewrite (FloatFacts.of_Q_le _ _ H0 HW Hle). reflexivity.
  - intros Hex Hlt. rewrite Hrule.
    destruct (sub_exact now t0 Hex) as (d & -> & Heq).
    rewrite (proj2 (gt_spec d W)); [reflexivity|]. rewrite Heq. exact Hlt.
Qed.

Lemma cancellation_window_respected_witness :
  let tx := {| tx_id := "tx1"; body := []; anchored := None |} in
  let st := snd (anchor_transaction tx (1000 # 1) init) in
  let cancelled_st :=
    {| notary_storage := delete "tx1" (notary_storage st);
       cancellation_window := 120 # 1 |} in
  cancel_transaction "tx1" (1119 # 1) st = Return (true, cancelled_st)
  /\ cancel_transaction "tx1" (1120 # 1) st = Return (true, cancelled_st)
  /\ cancel_transaction "tx1" (1121 # 1) st = Return (false, st)
  /\ is_anchored "tx1" cancelled_st = false
  /\ is_anchored "tx1" st = true.
Proof.
  intros tx st cancelled_st.
  assert (Hst : notary_storage st !! "tx1"
                = Some {| tx_id := "tx1"; body := []; anchored := Some (1000 # 1) |})
    by apply anchor_transaction_stores.
  destruct (cancellation_window_respected "tx1" _ (1000 # 1) (1119 # 1) st Hst eq_refl)
    as (_ & Hgone & Hthere & Hin & _).
  destruct (cancellation_window_respected "tx1" _ (1000 # 1) (1120 # 1) st Hst eq_refl)
    as (_ & _ & _ & Hedge & _).
  destruct (cancellation_window_respected "tx1" _ (1000 # 1) (1121 # 1) st Hst eq_refl)
    as (_ & _ & _ & _ & Hout).
  split; [apply Hin; [reflexivity | unfold Qle; simpl; lia | unfold Qle; simpl; lia]|].
  split; [apply Hedge; [reflexivity | unfold Qle; simpl; lia | unfold Qle; simpl; lia]|].
  split; [apply Hout; [reflexivity | unfold Qlt; simpl; lia]|].
  split; [exact Hgone | exact Hthere].
Defined.

(** C6 (as stated) fails.  Both readings below are floats and the elapsed
    time between them exceeds the window of 120 seconds, yet their float
    difference is 120.0 and the cancellation succeeds.  And a cancellation
    that is refused is no error: past the window the call returns [False],
    the value it also returns for an id that was never anchored. *)
Lemma cancel_after_the_window_succeeds :
  let tx := {| tx_id := "tx1"; body := []; anchored := None |} in
  let t0 := 3 # 281474976710656 in
  let now := (120 + (1 # 70368744177664))%Q in
  let st := snd (anchor_transaction tx t0 init) in
  (Float.is_float t0 = true /\ Float.is_float now = true)
  /\ (cancellation_window st < now - t0)%Q
  /\ cancel_transaction "tx1" now st
     = Return (true, {| notary_storage := delete "tx1" (notary_storage st);
                        cancellation_window := 120 # 1 |})
  /\ cancel_transaction "tx1" (1000 # 1) st = Return (false, st)
  /\ cancel_transaction "tx2" (1 # 1) st = Return (false, st).
Proof.
  split; [split; vm_compute; reflexivity|].
  split; [vm_compute; reflexivity|].
  split; [|split]; reflexivity.
Qed.

End EmulatorFacts.

(** ** Compliance *)

Module ComplianceFacts.

Import Compliance.

Section Check.

Context {plain item : Type}.
Variable paillier_encrypt : nat -> plain -> result item.
Variable schnorr_sign : nat -> plain -> result item.
Variable item_eq : item -> item -> bool.
Variable unpack : item -> result (item * item).
Variable schnorr_verify : item -> item -> item -> result bool.

Local Abbreviation encrypt_set := (encrypt_set paillier_encrypt schnorr_sign).
Local Abbreviation compute_intersection :=
  (compute_intersection item_eq unpack schnorr_verify).
Local Abbreviation check_compliance :=
  (check_compliance paillier_encrypt schnorr_sign item_eq unpack schnorr_verify).
Local Abbreviation verify_transaction :=
  (verify_transaction paillier_encrypt schnorr_sign item_eq unpack schnorr_verify).

(** A report is compliant exactly when nothing matched the blacklist: its
    other fields do not enter the status. *)
Lemma check_compliance_status (scheme : scheme_type) (level : Z)
  (blacklist_db whitelist_db : list plain) (address_set : list item) (r : report) :
  check_compliance scheme level blacklist_db whitelist_db address_set = Return r ->
  (exists blacklist,
      encrypt_set scheme 0 blacklist_db = Return blacklist
      /\ compute_intersection scheme address_set blacklist
         = Return (blacklist_matches r))
  /\ String.eqb (compliance_status r) "Compliant"
     = match blacklist_matches r with [] => true | _ :: _ => false end.
Proof.
  unfold Compliance.check_compliance.
  destruct (encrypt_set scheme 0 blacklist_db) as [bl|]; unfold Py.bind at 1;
    [|discriminate].
  destruct (encrypt_set scheme (length blacklist_db) whitelist_db) as [wl|];
    unfold Py.bind at 1; [|discriminate].
  destruct (compute_intersection scheme address_set bl) as [bm|] eqn:Ebm;
    unfold Py.bind at 1; [|discriminate].
  destruct (compute_intersection scheme address_set wl) as [wm|]; unfold Py.bind at 1;
    [|discriminate].
  intros [= <-]. cbn [blacklist_matches compliance_status].
  split; [exists bl; split; [reflexivity | exact Ebm]|].
  destruct bm; reflexivity.
Qed.

(** What [verify_transaction] returns is decided by the blacklist. *)
Lemma verify_transaction_returns (scheme : scheme_type) (level : Z)
  (blacklist_db whitelist_db : list plain) (sender recipient : item) (b : bool) :
  verify_transaction scheme level blacklist_db whitelist_db sender recipient = Return b ->
  exists blacklist matched,
    encrypt_set scheme 0 blacklist_db = Return blacklist
    /\ compute_intersection scheme [sender; recipient] blacklist = Return matched
    /\ b = match matched with [] => true | _ :: _ => false end.
Proof.
  unfold Compliance.verify_transaction. cbv zeta.
  destruct (check_compliance scheme level blacklist_db whitelist_db [sender; recipient])
    as [r|] eqn:E; unfold Py.bind; [|discriminate].
  intros [= <-].
  destruct (check_compliance_status _ _ _ _ _ _ E) as ((bl & Hbl & Hbm) & Hs).
  exists bl, (blacklist_matches r). auto.
Qed.

(** C8 (as the code has it).  The verdict of [verify_transaction] on
    the candidates [{sender, recipient}] is decided by the blacklist alone:
    it is [True] exactly when the intersection with the encrypted blacklist
    is empty, and where the call returns for two whitelists and two
    compliance levels it returns the same verdict.  With both lists empty no
    candidate is on the whitelist, and at the advanced level the
    transaction is still reported compliant, under either scheme. *)
Theorem verify_transaction_blacklist_only (scheme : scheme_type) (level : Z)
  (blacklist_db whitelist_db : list plain) (sender recipient : item) :
  (forall r,
     check_compliance scheme level blacklist_db whitelist_db [sender; recipient]
     = Return r ->
     verify_transaction scheme level blacklist_db whitelist_db sender recipient
     = Return (match blacklist_matches r with [] => true | _ :: _ => false end))
  /\ (forall level' whitelist_db' b b',
        verify_transaction scheme level blacklist_db whitelist_db sender recipient
        = Return b ->
        verify_transaction scheme level' blacklist_db whitelist_db' sender recipient
        = Return b' ->
        b' = b)
  /\ verify_transaction paillier COMPLIANCE_LEVEL_ADVANCED [] [] sender recipient
     = Return true
  /\ (Py.returns (unpack sender) = true -> Py.returns (unpack recipient) = true ->
      verify_transaction schnorr COMPLIANCE_LEVEL_ADVANCED [] [] sender recipient
      = Return true).
Proof.
  split; [|split; [|split]].
  - intros r E. unfold Compliance.verify_transaction. cbv zeta.
    fold (check_compliance scheme level blacklist_db whitelist_db [sender; recipient]).
    rewrite E. unfold Py.bind.
    destruct (check_compliance_status _ _ _ _ _ _ E) as (_ & ->). reflexivity.
  - intros level' whitelist_db' b b' H H'.
    apply verify_transaction_returns in H, H'.
    destruct H as (bl & bm & E1 & E2 & ->).
    destruct H' as (bl' & bm' & E1' & E2' & ->).
    rewrite E1 in E1'. injection E1' as <-.
    rewrite E2 in E2'. injection E2' as <-. reflexivity.
  - reflexivity.
  - intros Hs Hr. unfold Compliance.verify_transaction, Compliance.check_compliance.
    cbn [Compliance.encrypt_set length Py.bind Compliance.compute_intersection].
    unfold verify_item. cbn [verify_loop].
    destruct (unpack sender); [|discriminate].
    destruct (unpack recipient); [|discriminate].
    reflexivity.
Qed.

End Check.

End ComplianceFacts.

(* ===================================================================== *)
(** * Further properties of the embedded code *)
(* ===================================================================== *)

(** ** Commitments and their use by the interface *)

Module CommitmentProperties.

Import Pedersen PedersenFacts.

(** X1.  What [create_commitment] returns opens under [verify_commitment]:
    the commitment is accepted for the committed value and the returned
    blinding, whether the blinding was supplied, omitted or given as 0. *)
Theorem created_commitment_opens (value draw : Z) (random_factor : option Z) :
  verify_commitment (fst (create_commitment value random_factor draw)) value
                    (snd (create_commitment value random_factor draw)) = true.
Proof.
  apply verify_commitment_sum. unfold create_commitment. cbn [fst snd].
  rewrite commit_sum, Z.mod_mod by discriminate. reflexivity.
Qed.

(** X2.  Commitments add up: the sum of two commitment points is accepted
    for the sum of the two values under the sum of the two blindings. *)
Theorem commitments_add (v1 v2 d1 d2 : Z) (rf1 rf2 : option Z) :
  let c1 := create_commitment v1 rf1 d1 in
  let c2 := create_commitment v2 rf2 d2 in
  verify_commitment (point_add (fst c1) (fst c2)) (v1 + v2) (snd c1 + snd c2) = true.
Proof.
  intros c1 c2. apply verify_commitment_sum.
  unfold c1, c2, create_commitment. cbn [fst snd].
  rewrite !commit_sum. unfold point_add.
  rewrite Z.mod_mod by discriminate.
  rewrite <- Z.add_mod by discriminate. f_equal. lia.
Qed.

Section Prepare.

Context {public_key_t ciphertext : Type}.
Variable encrypt_value : Z -> public_key_t -> ciphertext.

(** X3.  The transaction prepared by [prepare_encrypted_transaction]
    carries a commitment that opens for the amount under the blinding stored
    beside it, and that blinding is the freshly drawn one. *)
Theorem prepared_commitment_opens (sender recipient : string) (amount : Z)
  (public_key : public_key_t) (draw : Z) :
  let t := ZkInterface.prepare_encrypted_transaction
             encrypt_value sender recipient amount public_key draw in
  verify_commitment (ZkInterface.commitment t) amount (ZkInterface.random_factor t)
  = true
  /\ ZkInterface.random_factor t = draw
  /\ ZkInterface.encrypted_amount t = encrypt_value amount public_key.
Proof.
  cbv zeta. unfold ZkInterface.prepare_encrypted_transaction.
  destruct (create_commitment amount None draw) as [c r] eqn:E.
  cbn [ZkInterface.commitment ZkInterface.random_factor ZkInterface.encrypted_amount].
  unfold create_commitment in E. injection E as <- <-.
  repeat split.
  apply verify_commitment_sum.
  rewrite commit_sum, Z.mod_mod by discriminate. reflexivity.
Qed.

End Prepare.

End CommitmentProperties.

(** ** Range proofs of the emulation *)

Module RangeProofProperties.

Import Bulletproofs.Utils Bulletproofs.Emulation Bulletproofs.RangeProof.
Import BulletproofsFacts.

(** X4.  The emulated verifier accepts exactly the proof the generator
    returns for the same commitment, range and flag: it answers [True] for
    that value, and for no other. *)
Theorem verify_accepts_exactly_the_generated_proof
  (c P lo hi : Z) (flag : bool) :
  verify_bulletproof c P lo hi flag = Return true
  <-> generate_bulletproof c lo hi flag = Return P.
Proof.
  unfold verify_bulletproof.
  destruct (generate_bulletproof c lo hi flag) as [Q|e]; unfold Py.bind; split.
  - intros [= H]. apply Z.eqb_eq in H. congruence.
  - intros [= ->]. rewrite Z.eqb_refl. reflexivity.
  - discriminate.
  - discriminate.
Qed.

(** X5.  A range proof made by [create_range_proof] is validated by
    [validate_range_proof] for the commitment returned with it and the same
    range. *)
Theorem created_range_proof_validates
  (amount g h lo hi blinding c p : Z) :
  create_range_proof amount g h lo hi blinding = Return (c, p) ->
  validate_range_proof c p lo hi = Return true.
Proof.
  unfold create_range_proof, validate_range_proof.
  unfold Bulletproofs.Core.generate_bulletproof, Bulletproofs.Core.verify_bulletproof.
  cbn [String.eqb Ascii.eqb Bool.eqb Bulletproofs.Core.BULLETPROOF_IMPLEMENTATION].
  destruct (generate_bulletproof (g * amount + h * blinding) lo hi true)
    as [Q|e] eqn:E; unfold Py.bind; [|discriminate].
  intros [= <- <-].
  unfold verify_bulletproof. rewrite E. unfold Py.bind.
  rewrite Z.eqb_refl. reflexivity.
Qed.

Lemma created_range_proof_validates_witness :
  validate_range_proof 57 (compute_challenge (transcript 57 0 100 "valid") 256) 0 100
  = Return true.
Proof.
  apply (created_range_proof_validates 50 1 1 0 100 7).
  vm_compute. reflexivity.
Defined.

(** X6.  [validate_transaction_with_bulletproof] never answers [False]:
    it proves and verifies in one go, so it returns [True] whenever the
    prover returns a proof, and raises the prover's error otherwise. *)
Theorem validate_transaction_with_bulletproof_never_false (c lo hi : Z) :
  ZkInterface.validate_transaction_with_bulletproof c lo hi
  = match generate_bulletproof c lo hi true with
    | Return _ => Return true
    | Raise e => Raise e
    end.
Proof.
  unfold ZkInterface.validate_transaction_with_bulletproof.
  unfold Bulletproofs.Core.generate_bulletproof, Bulletproofs.Core.verify_bulletproof.
  cbn [String.eqb Ascii.eqb Bool.eqb Bulletproofs.Core.BULLETPROOF_IMPLEMENTATION].
  unfold verify_bulletproof.
  destruct (generate_bulletproof c lo hi true) as [P|e]; unfold Py.bind;
    [|reflexivity].
  rewrite Z.eqb_refl. reflexivity.
Qed.

End RangeProofProperties.

(** ** Hexadecimal text and digests *)

Module HexProperties.

Import Py.

Ltac each_digit d :=
  let H := fresh in
  assert (H : d = 0 \/ d = 1 \/ d = 2 \/ d = 3 \/ d = 4 \/ d = 5 \/ d = 6 \/ d = 7 \/
              d = 8 \/ d = 9 \/ d = 10 \/ d = 11 \/ d = 12 \/ d = 13 \/ d = 14 \/ d = 15)
    by lia;
  repeat (destruct H as [H|H]; [subst d|]); [..|subst d].

(** A hexadecimal digit as [bytes.hex] writes it, seen by the readers. *)
Lemma hexdigit_read (d : Z) :
  0 <= d < 16 ->
  hexval (hexdigit d) = Some d
  /\ is_space (hexdigit d) = false
  /\ chr (code (hexdigit d)) = hexdigit d
  /\ (code (hexdigit d) <? 127) = true
  /\ is_blank (code (hexdigit d)) = false
  /\ (code (hexdigit d) =? 95) = false
  /\ (code (hexdigit d) =? 43) = false
  /\ (code (hexdigit d) =? 45) = false
  /\ (code (hexdigit d) =? 120) || (code (hexdigit d) =? 88) = false.
Proof. intros Hd. each_digit d; vm_compute; repeat split. Qed.

Lemma byte_digits (b : Z) :
  0 <= b < 256 -> 0 <= b / 16 < 16 /\ 0 <= b mod 16 < 16 /\ 16 * (b / 16) + b mod 16 = b.
Proof.
  intros Hb. split; [|split].
  - split; [apply Z.div_pos; lia | apply Z.div_lt_upper_bound; lia].
  - apply Z.mod_pos_bound. lia.
  - symmetry. apply Z.div_mod. lia.
Qed.

(** Decoding undoes encoding. *)
Lemma fromhex_hex (bs : bytes) : byte_range bs -> fromhex (hex bs) = Return bs.
Proof.
  induction 1 as [|b bs Hb _ IH]; [reflexivity|].
  destruct (byte_digits b Hb) as (H1 & H2 & Hsum).
  destruct (hexdigit_read _ H1) as (V1 & S1 & _).
  destruct (hexdigit_read _ H2) as (V2 & _).
  cbn [hex fromhex]. rewrite S1, V1, V2, IH. unfold bind. rewrite Hsum. reflexivity.
Qed.

(** The codes of the text [bytes.hex] produces. *)
Lemma hex_codes (b : Z) (bs : bytes) :
  map code (list_ascii_of_string (hex (b :: bs)))
  = code (hexdigit (b / 16)) :: code (hexdigit (b mod 16))
      :: map code (list_ascii_of_string (hex bs)).
Proof. reflexivity. Qed.

Lemma to_ascii_hex (bs : bytes) :
  byte_range bs ->
  to_ascii (map code (list_ascii_of_string (hex bs)))
  = map code (list_ascii_of_string (hex bs)).
Proof.
  induction 1 as [|b bs Hb _ IH]; [reflexivity|].
  destruct (byte_digits b Hb) as (H1 & H2 & _).
  destruct (hexdigit_read _ H1) as (_ & _ & _ & A1 & _).
  destruct (hexdigit_read _ H2) as (_ & _ & _ & A2 & _).
  rewrite hex_codes. cbn [to_ascii]. rewrite A1, A2, IH. reflexivity.
Qed.

Lemma scan_digits_hex (bs : bytes) :
  byte_range bs ->
  forall acc,
  scan_digits (map code (list_ascii_of_string (hex bs))) acc false
  = Some (fold_left (fun a b => a * 256 + b) bs acc, []).
Proof.
  induction 1 as [|b bs Hb _ IH]; intros acc; [reflexivity|].
  destruct (byte_digits b Hb) as (H1 & H2 & Hsum).
  destruct (hexdigit_read _ H1) as (V1 & _ & C1 & _ & _ & U1 & _).
  destruct (hexdigit_read _ H2) as (V2 & _ & C2 & _ & _ & U2 & _).
  rewrite hex_codes. cbn [scan_digits fold_left].
  rewrite U1, C1, V1, U2, C2, V2, IH.
  replace (16 * (16 * acc + b / 16) + b mod 16) with (acc * 256 + b) by lia.
  reflexivity.
Qed.

(** [int(_, 16)] reads the text of [bytes.hex] back as the big-endian
    integer of the bytes. *)
Lemma int_base16_hex (bs : bytes) :
  byte_range bs -> bs <> [] ->
  int_base16 (hex bs) = Some (int_from_bytes bs).
Proof.
  intros Hr Hne. unfold int_base16. rewrite to_ascii_hex by assumption.
  destruct bs as [|b bs]; [contradiction|].
  pose proof (scan_digits_hex (b :: bs) Hr 0) as Hscan.
  inversion Hr as [|? ? Hb Hbs]; subst.
  destruct (byte_digits b Hb) as (H1 & H2 & _).
  destruct (hexdigit_read _ H1) as (V1 & _ & C1 & _ & B1 & _ & P1 & M1 & _).
  destruct (hexdigit_read _ H2) as (_ & _ & _ & _ & _ & _ & _ & _ & X2).
  rewrite hex_codes in *.
  cbn [skip_blanks]. rewrite B1.
  unfold strip_sign. rewrite P1, M1.
  unfold strip_prefix. rewrite X2, andb_false_r.
  unfold starts_with_digit. rewrite C1, V1, Hscan.
  cbn [skip_blanks]. f_equal. unfold int_from_bytes. lia.
Qed.

Lemma int_from_bytes_bound (bs : bytes) :
  byte_range bs -> 0 <= int_from_bytes bs < 256 ^ Z.of_nat (length bs).
Proof.
  unfold int_from_bytes. intros Hr.
  assert (G : forall acc k, 0 <= acc < 256 ^ Z.of_nat k ->
            0 <= fold_left (fun a b => a * 256 + b) bs acc
              < 256 ^ Z.of_nat (k + length bs)).
  { induction Hr as [|b bs Hb _ IH]; intros acc k Hacc; cbn [fold_left length].
    - rewrite Nat.add_0_r. exact Hacc.
    - replace (k + S (length bs))%nat with (S k + length bs)%nat by lia.
      apply IH. rewrite Nat2Z.inj_succ, Z.pow_succ_r by lia. nia. }
  apply (G 0 0%nat). cbn. lia.
Qed.

(** The digest of [hashlib.sha256] is 32 bytes, each in [0, 256). *)
Lemma be_bytes_range (width : nat) (x : Z) : byte_range (Hashlib.be_bytes width x).
Proof.
  unfold Hashlib.be_bytes, byte_range. apply List.Forall_forall.
  intros b Hin. apply in_map_iff in Hin. destruct Hin as (i & <- & _).
  change 255 with (Z.ones 8). rewrite Z.land_ones by lia.
  apply Z.mod_pos_bound. reflexivity.
Qed.

Lemma be_bytes_length (width : nat) (x : Z) :
  length (Hashlib.be_bytes width x) = width.
Proof. unfold Hashlib.be_bytes. rewrite length_map, length_rev, length_seq. reflexivity. Qed.

Lemma sha256_shape (msg : bytes) :
  byte_range (Hashlib.sha256 msg) /\ length (Hashlib.sha256 msg) = 32%nat.
Proof.
  unfold Hashlib.sha256. cbv zeta.
  set (h := Hashlib.blocks _ _ _). clearbody h.
  cbn [flat_map]. split.
  - unfold byte_range. rewrite !Forall_app.
    repeat split; try apply be_bytes_range. constructor.
  - rewrite !length_app, !be_bytes_length. reflexivity.
Qed.

Lemma hex_length (bs : bytes) : String.length (hex bs) = (2 * length bs)%nat.
Proof. induction bs as [|b bs IH]; cbn [hex String.length length]; lia. Qed.

(** The text of [bytes.hex] is ASCII: one byte for each digit. *)
Lemma encode_hex_length (bs : bytes) :
  byte_range bs -> length (encode (hex bs)) = (2 * length bs)%nat.
Proof.
  induction 1 as [|b bs Hb _ IH]; [reflexivity|].
  destruct (byte_digits b Hb) as (H1 & H2 & _).
  destruct (hexdigit_read _ H1) as (_ & _ & _ & A1 & _).
  destruct (hexdigit_read _ H2) as (_ & _ & _ & A2 & _).
  apply Z.ltb_lt in A1, A2.
  cbn [hex encode]. cbv zeta.
  rewrite (proj2 (Z.ltb_lt _ 128)) by lia.
  rewrite (proj2 (Z.ltb_lt (code (hexdigit (b mod 16))) 128)) by lia.
  cbn [length]. rewrite IH. lia.
Qed.

(** X7.  [hash_to_point] and [compute_challenge] with its default length
    are the same function: reading the hexadecimal digest back with
    [int(_, 16)] gives the big-endian integer of the digest, which lies in
    [0, 2^256) and is left alone by the reduction modulo [2 ** 256]. *)
Theorem hash_to_point_is_challenge (data : string) :
  Bulletproofs.Utils.hash_to_point data
  = Some (Bulletproofs.Utils.compute_challenge data 256)
  /\ 0 <= Bulletproofs.Utils.compute_challenge data 256 < 2 ^ 256.
Proof.
  unfold Bulletproofs.Utils.hash_to_point, Bulletproofs.Utils.compute_challenge,
    Hashlib.sha256_hex.
  destruct (sha256_shape (encode data)) as [Hr Hl].
  pose proof (int_from_bytes_bound _ Hr) as Hb. rewrite Hl in Hb.
  change (256 ^ Z.of_nat 32) with (2 ^ 256) in Hb.
  cbv zeta. rewrite Z.mod_small by exact Hb.
  split; [|exact Hb].
  apply int_base16_hex; [exact Hr|].
  intros E. rewrite E in Hl. discriminate.
Qed.

End HexProperties.

(** ** The ordered store under writes and deletes *)

Module StoreProperties.

Import Lmdb LmdbFacts.

Lemma compare_antisym (a b : Py.bytes) : compare b a = CompOpp (compare a b).
Proof.
  revert b. induction a as [|x a IH]; intros [|y b]; simpl; try reflexivity.
  rewrite (Z.compare_antisym x y).
  destruct (x ?= y); simpl; auto.
Qed.

Lemma compare_gt_lt (a b : Py.bytes) : compare a b = Gt -> compare b a = Lt.
Proof. intros H. rewrite compare_antisym, H. reflexivity. Qed.

Lemma compare_neq (a b : Py.bytes) : a <> b -> compare a b <> Eq.
Proof. intros Hne E. apply Hne, compare_eq, E. Qed.

Lemma encode_app (a b : string) : Py.encode (a +:+ b) = Py.encode a ++ Py.encode b.
Proof.
  induction a as [|c a IH]; [reflexivity|].
  change (String c a +:+ b) with (String c (a +:+ b)).
  cbn [Py.encode]. rewrite IH.
  destruct (Py.code c <? 128); reflexivity.
Qed.

Lemma startswith_app (p r : Py.bytes) : startswith (p ++ r) p = true.
Proof.
  induction p as [|x p IH]; [destruct r; reflexivity|].
  simpl. rewrite Z.eqb_refl. exact IH.
Qed.

Section Env.

Context {V : Type}.
Implicit Types (e : env V) (k : Py.bytes) (v : V).

Lemma sorted_cons k v e : sorted ((k, v) :: e) = true <-> above k e /\ sorted e = true.
Proof.
  destruct e as [|[k' w] e]; simpl.
  - tauto.
  - destruct (compare k k'); split; intros H; try tauto; try discriminate;
      destruct H as [H _]; discriminate.
Qed.

Lemma above_write k0 k v e :
  compare k0 k = Lt -> above k0 e -> above k0 (write k v e).
Proof.
  intros Hk He. destruct e as [|[k' w] e]; simpl; [exact Hk|].
  destruct (compare k k'); simpl; auto.
Qed.

(** A write keeps the keys in order. *)
Lemma sorted_write k v e : sorted e = true -> sorted (write k v e) = true.
Proof.
  induction e as [|[k1 w1] e IH]; intros Hs; [reflexivity|].
  apply sorted_cons in Hs. destruct Hs as [Ha Hs].
  cbn [write]. destruct (compare k k1) eqn:E.
  - apply compare_eq in E. subst k1. apply sorted_cons. auto.
  - apply sorted_cons. split; [exact E|]. apply sorted_cons. auto.
  - apply sorted_cons. split; [|auto].
    apply above_write; [apply compare_gt_lt; exact E | exact Ha].
Qed.

(** A write leaves the other keys alone. *)
Lemma get_write_other k k' v e : k' <> k -> get k' (write k v e) = get k' e.
Proof.
  intros Hne. induction e as [|[k1 w1] e IH]; simpl.
  - destruct (compare k' k) eqn:E; try reflexivity.
    apply compare_eq in E. contradiction.
  - destruct (compare k k1) eqn:E; simpl.
    + apply compare_eq in E. subst k1.
      destruct (compare k' k) eqn:E'; try reflexivity.
      apply compare_eq in E'. contradiction.
    + destruct (compare k' k) eqn:E'; try reflexivity.
      apply compare_eq in E'. contradiction.
    + rewrite IH. reflexivity.
Qed.

(** A delete keeps the keys in order... *)
Lemma sorted_delete k e : sorted e = true -> sorted (snd (delete k e)) = true.
Proof.
  induction e as [|[k1 w1] e IH]; intros Hs; [reflexivity|].
  pose proof Hs as Hs0.
  apply sorted_cons in Hs. destruct Hs as [Ha Hs].
  cbn [delete]. destruct (compare k k1) eqn:E; cbn [snd]; [exact Hs| |].
  - apply sorted_cons. split; [|auto].
    destruct e as [|[k2 w2] e]; [exact I|].
    cbn [delete]. destruct (compare k k2) eqn:E2; cbn [snd above].
    + destruct e as [|[k3 w3] e]; [exact I|].
      eapply sorted_above; [exact Hs0|]. right. left. reflexivity.
    + exact Ha.
    + exact Ha.
  - apply sorted_cons. split; [|auto].
    destruct e as [|[k2 w2] e]; [exact I|].
    cbn [delete]. destruct (compare k k2) eqn:E2; cbn [snd above].
    + destruct e as [|[k3 w3] e]; [exact I|].
      eapply sorted_above; [exact Hs0|]. right. left. reflexivity.
    + exact Ha.
    + exact Ha.
Qed.

(** ... leaves the other keys alone ... *)
Lemma get_delete_other k k' e : k' <> k -> get k' (snd (delete k e)) = get k' e.
Proof.
  intros Hne. induction e as [|[k1 w1] e IH]; [reflexivity|].
  cbn [delete]. destruct (compare k k1) eqn:E; cbn [snd get].
  - apply compare_eq in E. subst k1.
    destruct (compare k' k) eqn:E'; try reflexivity.
    apply compare_eq in E'. contradiction.
  - rewrite IH. reflexivity.
  - rewrite IH. reflexivity.
Qed.

(** ... and reports whether the key was there; if not, nothing changes. *)
Lemma delete_absent k e : get k e = None -> delete k e = (false, e).
Proof.
  induction e as [|[k1 w1] e IH]; [reflexivity|].
  cbn [get delete]. destruct (compare k k1); [discriminate| |];
    intros H; rewrite (IH H); reflexivity.
Qed.

Lemma get_some_in k v e : In (k, v) e -> sorted e = true -> get k e = Some v.
Proof.
  induction e as [|[k1 w1] e IH]; [intros []|].
  intros [Heq|Hin] Hs.
  - injection Heq as -> ->. simpl. rewrite compare_refl. reflexivity.
  - pose proof (sorted_above _ _ _ Hs _ _ Hin) as Hlt.
    simpl. rewrite (compare_antisym k1 k), Hlt. simpl.
    apply IH; [exact Hin | eapply sorted_tail; exact Hs].
Qed.

End Env.

End StoreProperties.

(** ** The ledger under saves, deletes and listings *)

Module LedgerProperties.

Import Json Lmdb Ledger LmdbFacts StoreProperties LedgerFacts.

Lemma tx_key_prefix (family tx_id : string) :
  startswith (tx_key family tx_id) (Py.encode (family +:+ "_")) = true.
Proof.
  unfold tx_key. rewrite !encode_app, app_assoc. apply startswith_app.
Qed.

Lemma tx_key_longer_prefix (f g tx_id : string) :
  startswith (tx_key (f +:+ "_" +:+ g) tx_id) (Py.encode (f +:+ "_")) = true.
Proof.
  unfold tx_key. rewrite !encode_app, !app_assoc, <- !app_assoc.
  rewrite app_assoc. apply startswith_app.
Qed.

Lemma all_loop_in (tx_family : option string) (db : ledger) (key : Py.bytes)
  (tx : dict) :
  In (key, tx) db ->
  match tx_family with
  | None => true
  | Some f => startswith key (Py.encode (f +:+ "_"))
  end = true ->
  In tx (all_loop tx_family db).
Proof.
  intros Hin Hkeep. induction db as [|[k t] db IH]; [destruct Hin|].
  cbn [all_loop]. cbv zeta. destruct Hin as [Heq|Hin].
  - injection Heq as -> ->. rewrite Hkeep. apply in_eq.
  - destruct tx_family as [f|];
      [destruct (startswith k (Py.encode (f +:+ "_")))|];
      try apply in_cons; apply IH; exact Hin.
Qed.

(** X8.  Saving a transaction keeps the keys of the store in order and
    touches no other record: every lookup under another family+id key
    returns what it returned before. *)
Theorem save_transaction_frame (tx : dict) (db db' : ledger) (family : value) :
  getitem tx "TX_FAMILY" = Return family ->
  save_transaction tx db = Return db' ->
  (sorted db = true -> sorted db' = true)
  /\ forall tx_id tx_family,
       tx_key tx_family tx_id <> tx_key (format family) (_generate_tx_id tx) ->
       get_transaction tx_id tx_family db' = get_transaction tx_id tx_family db.
Proof.
  intros Hfam. unfold save_transaction. rewrite Hfam. unfold Py.bind, put.
  destruct (valid_key _); [|discriminate].
  intros [= <-]. split.
  - apply sorted_write.
  - intros tx_id tx_family Hne. unfold get_transaction.
    apply get_write_other. exact Hne.
Qed.

Lemma save_transaction_frame_witness :
  let kept := [("TX_FAMILY", Str "financial_tx"); ("sender", Str "R");
               ("recipient", Str "S"); ("amount", Int 30)] in
  let db := [(tx_key "financial_tx" "0", kept); (tx_key "notary_tx" "0", kept)] in
  let tx := [("TX_FAMILY", Str "financial_tx"); ("sender", Str "S");
             ("recipient", Str "R"); ("amount", Int 100)] in
  let key := tx_key "financial_tx" (_generate_tx_id tx) in
  (sorted db = true -> sorted (write key tx db) = true)
  /\ forall tx_id tx_family,
       tx_key tx_family tx_id <> key ->
       get_transaction tx_id tx_family (write key tx db)
       = get_transaction tx_id tx_family db.
Proof.
  apply (save_transaction_frame
           [("TX_FAMILY", Str "financial_tx"); ("sender", Str "S");
            ("recipient", Str "R"); ("amount", Int 100)]
           [(tx_key "financial_tx" "0",
             [("TX_FAMILY", Str "financial_tx"); ("sender", Str "R");
              ("recipient", Str "S"); ("amount", Int 30)]);
            (tx_key "notary_tx" "0",
             [("TX_FAMILY", Str "financial_tx"); ("sender", Str "R");
              ("recipient", Str "S"); ("amount", Int 30)])] _
           (Str "financial_tx")); reflexivity.
Defined.

(** X9.  On a store with its keys in order, [delete_transaction] answers
    whether the record was there, leaves no record under the key, keeps the
    order, touches no other key, and changes nothing when the record is
    absent. *)
Theorem delete_transaction_removes (tx_id tx_family : string) (db : ledger) :
  sorted db = true ->
  let result := delete_transaction tx_id tx_family db in
  fst result = bool_decide (is_Some (get_transaction tx_id tx_family db))
  /\ get_transaction tx_id tx_family (snd result) = None
  /\ sorted (snd result) = true
  /\ (forall id' family',
        tx_key family' id' <> tx_key tx_family tx_id ->
        get_transaction id' family' (snd result) = get_transaction id' family' db)
  /\ (get_transaction tx_id tx_family db = None -> snd result = db).
Proof.
  intros Hs result. unfold result, delete_transaction, get_transaction.
  change ledger with (env dict) in *.
  split; [|split; [|split; [|split]]].
  - destruct (get (tx_key tx_family tx_id) db) as [v|] eqn:E.
    + rewrite (delete_found _ _ _ E). symmetry. apply bool_decide_eq_true. eauto.
    + rewrite (delete_absent _ _ E). symmetry. apply bool_decide_eq_false.
      intros [x Hx]. discriminate.
  - apply get_delete. exact Hs.
  - apply sorted_delete. exact Hs.
  - intros id' family' Hne. apply get_delete_other. exact Hne.
  - intros E. rewrite (delete_absent _ _ E). reflexivity.
Qed.

Lemma delete_transaction_removes_witness :
  let tx := [("TX_FAMILY", Str "financial_tx"); ("amount", Int 100)] in
  let db := [(tx_key "financial_tx" "ab", tx)] in
  let result := delete_transaction "ab" "financial_tx" db in
  fst result = bool_decide (is_Some (get_transaction "ab" "financial_tx" db))
  /\ get_transaction "ab" "financial_tx" (snd result) = None
  /\ sorted (snd result) = true
  /\ (forall id' family',
        tx_key family' id' <> tx_key "financial_tx" "ab" ->
        get_transaction id' family' (snd result) = get_transaction id' family' db)
  /\ (get_transaction "ab" "financial_tx" db = None -> snd result = db).
Proof.
  apply (delete_transaction_removes "ab" "financial_tx"
           [(tx_key "financial_tx" "ab",
             [("TX_FAMILY", Str "financial_tx"); ("amount", Int 100)])]).
  reflexivity.
Defined.

(** X10.  A saved transaction is found by [get_all_transactions], both in
    the listing of all records and in the listing of its own family. *)
Theorem saved_transaction_is_listed (tx : dict) (db db' : ledger) (family : string) :
  getitem tx "TX_FAMILY" = Return (Str family) ->
  save_transaction tx db = Return db' ->
  In tx (get_all_transactions None db')
  /\ In tx (get_all_transactions (Some family) db').
Proof.
  intros Hfam. unfold save_transaction. rewrite Hfam. unfold Py.bind, put.
  destruct (valid_key _); [|discriminate].
  intros [= <-]. cbn [format].
  set (key := tx_key family (_generate_tx_id tx)).
  assert (Hin : In (key, tx) (write key tx db)) by (apply get_in, get_write).
  split; unfold get_all_transactions.
  - eapply all_loop_in; [exact Hin | reflexivity].
  - eapply all_loop_in; [exact Hin | apply tx_key_prefix].
Qed.

Lemma saved_transaction_is_listed_witness :
  let tx := [("TX_FAMILY", Str "financial_tx"); ("amount", Int 100)] in
  let db' := write (tx_key "financial_tx" (_generate_tx_id tx)) tx [] in
  In tx (get_all_transactions None db')
  /\ In tx (get_all_transactions (Some "financial_tx") db').
Proof.
  apply (saved_transaction_is_listed
           [("TX_FAMILY", Str "financial_tx"); ("amount", Int 100)] [] _
           "financial_tx"); reflexivity.
Defined.

(** X11.  Families are told apart by a key prefix only: a transaction saved
    under a family named [f_g] is also listed under the family [f], whose
    prefix ["f_"] its key starts with. *)
Theorem family_listing_includes_longer_names
  (tx : dict) (db db' : ledger) (f g : string) :
  getitem tx "TX_FAMILY" = Return (Str (f +:+ "_" +:+ g)) ->
  save_transaction tx db = Return db' ->
  In tx (get_all_transactions (Some f) db').
Proof.
  intros Hfam. unfold save_transaction. rewrite Hfam. unfold Py.bind, put.
  destruct (valid_key _); [|discriminate].
  intros [= <-]. cbn [format].
  set (key := tx_key (f +:+ "_" +:+ g) (_generate_tx_id tx)).
  assert (Hin : In (key, tx) (write key tx db)) by (apply get_in, get_write).
  unfold get_all_transactions.
  eapply all_loop_in; [exact Hin | apply tx_key_longer_prefix].
Qed.

Lemma family_listing_includes_longer_names_witness :
  let tx := [("TX_FAMILY", Str "financial_tx"); ("amount", Int 100)] in
  In tx (get_all_transactions (Some "financial")
           (write (tx_key "financial_tx" (_generate_tx_id tx)) tx [])).
Proof.
  apply (family_listing_includes_longer_names
           [("TX_FAMILY", Str "financial_tx"); ("amount", Int 100)] [] _
           "financial" "tx"); reflexivity.
Defined.

End LedgerProperties.

(** ** Balances *)

Module BalanceProperties.

Import Json Lmdb Ledger LmdbFacts StoreProperties LedgerFacts.

(** What one record adds does not depend on the balance so far. *)
Lemma balance_step_shift (address : string) (prefix : Py.bytes)
  (entry : Py.bytes * dict) (acc r acc' : Z) :
  balance_step address prefix acc entry = Return r ->
  balance_step address prefix acc' entry = Return (acc' + (r - acc)).
Proof.
  destruct entry as [key tx]. unfold balance_step.
  destruct (startswith key prefix); [|intros [= <-]; f_equal; lia].
  destruct (getitem tx "recipient") as [rc|]; unfold Py.bind; [|discriminate].
  destruct (eq_str rc address).
  - destruct (getitem tx "amount") as [[s|a]|]; cbn [add_amount]; try discriminate.
    intros [= <-]. f_equal. lia.
  - destruct (getitem tx "sender") as [sd|]; [|discriminate].
    destruct (eq_str sd address); [|intros [= <-]; f_equal; lia].
    destruct (getitem tx "amount") as [[s|a]|]; cbn [add_amount]; try discriminate.
    intros [= <-]. f_equal. lia.
Qed.

Lemma balance_step_raises (address : string) (prefix : Py.bytes)
  (entry : Py.bytes * dict) (acc acc' : Z) (e : Py.exn) :
  balance_step address prefix acc entry = Raise e ->
  balance_step address prefix acc' entry = Raise e.
Proof.
  destruct entry as [key tx]. unfold balance_step.
  destruct (startswith key prefix); [|discriminate].
  destruct (getitem tx "recipient") as [rc|]; unfold Py.bind; [|auto].
  destruct (eq_str rc address).
  - destruct (getitem tx "amount") as [[s|a]|]; cbn [add_amount]; auto; discriminate.
  - destruct (getitem tx "sender") as [sd|]; [|auto].
    destruct (eq_str sd address); [|discriminate].
    destruct (getitem tx "amount") as [[s|a]|]; cbn [add_amount]; auto; discriminate.
Qed.

Lemma balance_loop_shift (address : string) (prefix : Py.bytes) (db : ledger) :
  forall acc b d,
  balance_loop address prefix acc db = Return b ->
  balance_loop address prefix (acc + d) db = Return (b + d).
Proof.
  induction db as [|entry db IH]; intros acc b d; cbn [balance_loop].
  - intros [= <-]. reflexivity.
  - destruct (balance_step address prefix acc entry) as [r|] eqn:E;
      unfold Py.bind; [|discriminate].
    rewrite (balance_step_shift _ _ _ _ _ (acc + d) E).
    intros Hloop. replace (acc + d + (r - acc)) with (r + d) by lia.
    apply IH. exact Hloop.
Qed.

Lemma balance_loop_cons (address : string) (prefix : Py.bytes) (acc : Z)
  (entry : Py.bytes * dict) (rest : ledger) :
  balance_loop address prefix acc (entry :: rest)
  = Py.bind (balance_step address prefix acc entry)
            (fun balance' => balance_loop address prefix balance' rest).
Proof. reflexivity. Qed.

Lemma balance_loop_write (address : string) (prefix key : Py.bytes) (tx : dict)
  (delta : Z) (db : ledger) :
  balance_step address prefix 0 (key, tx) = Return delta ->
  get key db = None ->
  forall acc b,
  balance_loop address prefix acc db = Return b ->
  balance_loop address prefix acc (write key tx db) = Return (b + delta).
Proof.
  intros Hstep. induction db as [|[k1 t1] db IH]; intros Hget acc b.
  - cbn [balance_loop write]. intros [= <-].
    rewrite (balance_step_shift _ _ _ _ _ acc Hstep). unfold Py.bind.
    f_equal. lia.
  - cbn [get] in Hget. cbn [write]. destruct (compare key k1) eqn:E; [discriminate| |].
    + intros Hloop. rewrite balance_loop_cons.
      rewrite (balance_step_shift _ _ _ _ _ acc Hstep). unfold Py.bind.
      replace (acc + (delta - 0)) with (acc + delta) by lia.
      apply balance_loop_shift. exact Hloop.
    + cbn [balance_loop].
      destruct (balance_step address prefix acc (k1, t1)) as [r|];
        unfold Py.bind; [|discriminate].
      apply IH. exact Hget.
Qed.

(** X12.  Balances add up over saves: when a transaction is saved under a
    key that was free, every balance that could be computed before is
    afterwards that balance plus what the new record alone contributes
    ([+amount] to its recipient, [-amount] to its sender, nothing to others
    and nothing outside the queried family). *)
Theorem get_balance_after_save
  (tx : dict) (db db' : ledger) (family : value) (address tx_family : string)
  (balance delta : Z) :
  getitem tx "TX_FAMILY" = Return family ->
  get_transaction (_generate_tx_id tx) (format family) db = None ->
  save_transaction tx db = Return db' ->
  get_balance address tx_family db = Return balance ->
  get_balance address tx_family
    [(tx_key (format family) (_generate_tx_id tx), tx)] = Return delta ->
  get_balance address tx_family db' = Return (balance + delta).
Proof.
  intros Hfam Hfree. unfold save_transaction. rewrite Hfam. unfold Py.bind, put.
  destruct (valid_key _); [|discriminate].
  intros [= <-] Hbal Hdelta. unfold get_balance in *.
  apply balance_loop_write; [|exact Hfree|exact Hbal].
  cbn [balance_loop] in Hdelta.
  destruct (balance_step address _ 0 _) as [r|]; unfold Py.bind in Hdelta;
    [|discriminate].
  exact Hdelta.
Qed.

Lemma get_balance_after_save_witness :
  let kept := [("TX_FAMILY", Str "f"); ("sender", Str "R");
               ("recipient", Str "S"); ("amount", Int 30)] in
  let db := [(tx_key "f" "0", kept); (tx_key "g" "0", kept)] in
  let tx := [("TX_FAMILY", Str "f"); ("sender", Str "S");
             ("recipient", Str "R"); ("amount", Int 100)] in
  get_balance "S" "f" (write (tx_key "f" (_generate_tx_id tx)) tx db)
  = Return (30 + -100).
Proof.
  apply (get_balance_after_save
           [("TX_FAMILY", Str "f"); ("sender", Str "S");
            ("recipient", Str "R"); ("amount", Int 100)]
           [(tx_key "f" "0",
             [("TX_FAMILY", Str "f"); ("sender", Str "R");
              ("recipient", Str "S"); ("amount", Int 30)]);
            (tx_key "g" "0",
             [("TX_FAMILY", Str "f"); ("sender", Str "R");
              ("recipient", Str "S"); ("amount", Int 30)])] _
           (Str "f") "S" "f" 30 (-100));
    reflexivity.
Defined.

(** X13.  One record of the family without a ["recipient"] field makes
    [get_balance] fail for every address: the query raises instead of
    returning a balance. *)
Theorem get_balance_fails_on_malformed_record
  (address tx_family : string) (db : ledger) (key : Py.bytes) (tx : dict) :
  In (key, tx) db ->
  startswith key (Py.encode (tx_family +:+ "_")) = true ->
  contains tx "recipient" = false ->
  Py.raises (get_balance address tx_family db) = true.
Proof.
  intros Hin Hp Hrec. unfold get_balance.
  generalize 0 as acc.
  induction db as [|entry db IH]; [destruct Hin|]. intros acc.
  cbn [balance_loop].
  destruct (balance_step address _ acc entry) as [r|] eqn:E; unfold Py.bind;
    [|reflexivity].
  destruct Hin as [->|Hin]; [|apply IH; exact Hin].
  exfalso. unfold balance_step in E. rewrite Hp in E.
  unfold contains in Hrec.
  destruct (getitem tx "recipient"); [discriminate Hrec | discriminate E].
Qed.

Lemma get_balance_fails_on_malformed_record_witness :
  Py.raises (get_balance "R" "financial"
               [(tx_key "financial" "ab", [("tx_id", Str "ab")])]) = true.
Proof.
  apply (get_balance_fails_on_malformed_record "R" "financial" _
           (tx_key "financial" "ab") [("tx_id", Str "ab")]).
  - left. reflexivity.
  - reflexivity.
  - reflexivity.
Defined.

End BalanceProperties.

(** ** The notary store under saves, deletes and reads *)

Module NotaryProperties.

Import Lmdb Notary LmdbFacts StoreProperties.

Lemma record_key_prefix (record_id : string) :
  startswith (record_key record_id) (Py.encode "notary_") = true.
Proof. unfold record_key. rewrite encode_app. apply startswith_app. Qed.

Lemma list_loop_keeps_unexpiring (include_expired : bool) (clock : nat -> datetime)
  (db : notary) (key : Py.bytes) (r : record) :
  In (key, r) db ->
  startswith key (Py.encode "notary_") = true ->
  expires_at r = None ->
  forall tick, In r (list_loop include_expired clock tick db).
Proof.
  intros Hin Hp Hnone. induction db as [|[k r0] db IH]; [destruct Hin|].
  intros tick. cbn [list_loop]. destruct Hin as [Heq|Hin].
  - injection Heq as -> ->. rewrite Hp, Hnone. apply in_eq.
  - destruct (startswith k (Py.encode "notary_")); [|apply IH; exact Hin].
    destruct (expires_at r0) as [e|]; [|apply in_cons, IH; exact Hin].
    destruct (negb include_expired); [|apply in_cons, IH; exact Hin].
    destruct (clock tick >? e); [|apply in_cons]; apply IH; exact Hin.
Qed.

(** The key of a record whose id is a digest has 71 bytes. *)
Lemma record_key_valid (msg : Py.bytes) :
  valid_key (record_key (Hashlib.sha256_hex msg)) = true.
Proof.
  unfold valid_key, record_key, Hashlib.sha256_hex.
  destruct (HexProperties.sha256_shape msg) as [Hr Hl].
  rewrite encode_app, length_app, (HexProperties.encode_hex_length _ Hr), Hl.
  reflexivity.
Qed.

Section Save.

Variable isoformat : datetime -> string.

(** X14.  No record written by [save_notary_record] ever expires.  With
    [expiration_minutes > 0] the call stops at the unbound name [timedelta]
    and stores nothing; otherwise the write is accepted (the key has 71
    bytes) and the stored record has no [expires_at], so
    [get_notary_record] returns it at every later time without touching the
    store, and every listing contains it. *)
Theorem saved_notary_record_never_expires (content signature : string)
  (expiration_minutes : Z) (now : datetime) (db : notary) :
  match save_notary_record isoformat content signature expiration_minutes now db with
  | NameError name => expiration_minutes > 0 /\ name = "timedelta"
  | Saved record_id db' =>
      let r := {| content := content; signature := signature;
                  timestamp := now; expires_at := None |} in
      expiration_minutes <= 0
      /\ (forall later, get_notary_record record_id later db' = (Some r, db'))
      /\ (forall include_expired clock,
            In r (list_notary_records include_expired clock db'))
  | PutError _ => False
  end.
Proof.
  unfold save_notary_record.
  destruct (Z.gtb_spec expiration_minutes 0) as [Hgt|Hle]; [split; [lia|reflexivity]|].
  cbv zeta. unfold put. rewrite record_key_valid.
  split; [lia|]. split.
  - intros later. unfold get_notary_record. rewrite get_write. reflexivity.
  - intros include_expired clock. unfold list_notary_records.
    eapply list_loop_keeps_unexpiring;
      [apply get_in, get_write | apply record_key_prefix | reflexivity].
Qed.

End Save.

(** X15.  Once [delete_notary_record] has run on a store with its keys in
    order, [get_notary_record] finds nothing under the id at any time, and
    the read leaves the store as the delete left it. *)
Theorem deleted_notary_record_is_gone (record_id : string) (db : notary)
  (now : datetime) :
  sorted db = true ->
  let db' := snd (delete_notary_record record_id db) in
  get_notary_record record_id now db' = (None, db')
  /\ fst (delete_notary_record record_id db)
     = bool_decide (is_Some (get (record_key record_id) db)).
Proof.
  intros Hs db'. unfold db', delete_notary_record, get_notary_record.
  change notary with (env record) in *.
  rewrite get_delete by exact Hs. split; [reflexivity|].
  destruct (get (record_key record_id) db) as [v|] eqn:E.
  - rewrite (delete_found _ _ _ E). symmetry. apply bool_decide_eq_true. eauto.
  - rewrite (delete_absent _ _ E). symmetry. apply bool_decide_eq_false.
    intros [x Hx]. discriminate.
Qed.

Lemma deleted_notary_record_is_gone_witness :
  let r := {| content := "deed"; signature := "sig"; timestamp := 1000;
              expires_at := None |} in
  let db := [(record_key "ab", r)] in
  let db' := snd (delete_notary_record "ab" db) in
  get_notary_record "ab" 5000 db' = (None, db')
  /\ fst (delete_notary_record "ab" db)
     = bool_decide (is_Some (get (record_key "ab") db)).
Proof.
  apply (deleted_notary_record_is_gone "ab"
           [(record_key "ab",
             {| content := "deed"; signature := "sig"; timestamp := 1000;
                expires_at := None |})] 5000).
  reflexivity.
Defined.

(** X16.  The default listing is the listing with [include_expired=True]
    with some records left out, in the same order; and every listed record
    is stored under a key that starts with ["notary_"]. *)
Theorem default_listing_is_part_of_full_listing
  (clock clock' : nat -> datetime) (db : notary) :
  sublist (list_notary_records false clock db) (list_notary_records true clock' db)
  /\ forall include_expired r,
       In r (list_notary_records include_expired clock db) ->
       exists key, In (key, r) db /\ startswith key (Py.encode "notary_") = true.
Proof.
  unfold list_notary_records. split.
  - generalize 0%nat at 1 as tick. generalize 0%nat as tick'.
    induction db as [|[k r0] db IH]; intros tick' tick; cbn [list_loop negb].
    + constructor.
    + destruct (startswith k (Py.encode "notary_")); [|apply IH].
      destruct (expires_at r0) as [e|]; [|apply sublist_skip, IH].
      destruct (clock tick >? e); [apply sublist_cons|apply sublist_skip]; apply IH.
  - intros include_expired r. generalize 0%nat as tick.
    induction db as [|[k r0] db IH]; intros tick; cbn [list_loop]; [intros []|].
    destruct (startswith k (Py.encode "notary_")) eqn:Hp.
    + assert (Hhere : In r (r0 :: list_loop include_expired clock tick db)
                      \/ In r (list_loop include_expired clock (S tick) db)
                      \/ In r (r0 :: list_loop include_expired clock (S tick) db) ->
                      exists key, In (key, r) ((k, r0) :: db)
                                  /\ startswith key (Py.encode "notary_") = true).
      { intros [H|[H|H]].
        - apply in_inv in H. destruct H as [<-|H].
          + exists k. split; [apply in_eq | exact Hp].
          + destruct (IH _ H) as (key & Hk & Hs). exists key. split; [apply in_cons|]; auto.
        - destruct (IH _ H) as (key & Hk & Hs). exists key. split; [apply in_cons|]; auto.
        - apply in_inv in H. destruct H as [<-|H].
          + exists k. split; [apply in_eq | exact Hp].
          + destruct (IH _ H) as (key & Hk & Hs). exists key. split; [apply in_cons|]; auto. }
      destruct (expires_at r0) as [e|]; [|intros H; apply Hhere; auto].
      destruct (negb include_expired); [|intros H; apply Hhere; auto].
      destruct (clock tick >? e); intros H; apply Hhere; auto.
    + intros H. destruct (IH _ H) as (key & Hk & Hs).
      exists key. split; [apply in_cons|]; auto.
Qed.

(** X17.  [get_notary_record] is a read unless the record has expired: it
    keeps the keys in order, never touches another id, and leaves the store
    exactly as it was whenever it returns a record or finds none. *)
Theorem get_notary_record_frame (record_id : string) (now : datetime) (db : notary) :
  sorted db = true ->
  let result := get_notary_record record_id now db in
  sorted (snd result) = true
  /\ (forall id', record_key id' <> record_key record_id ->
        get (record_key id') (snd result) = get (record_key id') db)
  /\ (snd result <> db ->
        fst result = None
        /\ exists r e, get (record_key record_id) db = Some r
                       /\ expires_at r = Some e /\ e < now).
Proof.
  intros Hs result. unfold result, get_notary_record, delete_notary_record.
  change notary with (env record) in *.
  destruct (get (record_key record_id) db) as [r|] eqn:E;
    [|cbn [fst snd]; repeat split; auto; congruence].
  destruct (expires_at r) as [e|] eqn:He;
    [|cbn [fst snd]; repeat split; auto; congruence].
  destruct (Z.gtb_spec now e) as [Hgt|Hle];
    [|cbn [fst snd]; repeat split; auto; congruence].
  cbn [fst snd]. split; [apply sorted_delete; exact Hs|].
  split; [intros id' Hne; apply get_delete_other; exact Hne|].
  intros _. split; [reflexivity|]. exists r, e. repeat split; auto; lia.
Qed.

Lemma get_notary_record_frame_witness :
  let r := {| content := "deed"; signature := "sig"; timestamp := 1000;
              expires_at := Some 2000 |} in
  let db := [(record_key "ab", r)] in
  let result := get_notary_record "ab" 2001 db in
  sorted (snd result) = true
  /\ (forall id', record_key id' <> record_key "ab" ->
        get (record_key id') (snd result) = get (record_key id') db)
  /\ (snd result <> db ->
        fst result = None
        /\ exists r e, get (record_key "ab") db = Some r
                       /\ expires_at r = Some e /\ e < 2001).
Proof.
  apply (get_notary_record_frame "ab" 2001
           [(record_key "ab",
             {| content := "deed"; signature := "sig"; timestamp := 1000;
                expires_at := Some 2000 |})]).
  reflexivity.
Defined.

End NotaryProperties.

(** ** Anchors of the emulator *)

Module EmulatorProperties.

Import Emulator EmulatorFacts.

(** X18.  What [cancel_transaction] does to the emulator: it never changes
    the window nor any other anchor; when it answers [False] nothing has
    changed; when it answers [True] the anchor is gone, and every further
    cancellation of the same id answers [False]. *)
Theorem cancel_transaction_effect
  (id : string) (now : Q) (st st' : emulator) (answer : bool) :
  cancel_transaction id now st = Return (answer, st') ->
  cancellation_window st' = cancellation_window st
  /\ (forall id', id' <> id -> notary_storage st' !! id' = notary_storage st !! id')
  /\ (answer = false -> st' = st)
  /\ (answer = true ->
        notary_storage st' !! id = None
        /\ forall later, cancel_transaction id later st' = Return (false, st')).
Proof.
  unfold cancel_transaction at 1.
  destruct (notary_storage st !! id) as [tx|] eqn:Hlook.
  - destruct (anchored tx) as [t0|]; [|discriminate].
    destruct (Float.gt (Float.sub now t0) (cancellation_window st)).
    + intros [= <- <-]. repeat split; auto; discriminate.
    + intros [= <- <-]. cbn [cancellation_window notary_storage].
      split; [reflexivity|]. split.
      * intros id' Hne. apply lookup_delete_ne. congruence.
      * split; [discriminate|]. intros _.
        assert (Hgone : delete id (notary_storage st) !! id = None)
          by apply lookup_delete_eq.
        split; [exact Hgone|].
        intros later. unfold cancel_transaction. cbn [notary_storage].
        rewrite Hgone. reflexivity.
  - intros [= <- <-]. repeat split; auto; discriminate.
Qed.

Lemma cancel_transaction_effect_witness :
  let tx := {| tx_id := "tx1"; body := []; anchored := None |} in
  let st := snd (anchor_transaction tx (1000 # 1) init) in
  let st' := {| notary_storage := delete "tx1" (notary_storage st);
                cancellation_window := cancellation_window st |} in
  cancellation_window st' = cancellation_window st
  /\ (forall id', id' <> "tx1" -> notary_storage st' !! id' = notary_storage st !! id')
  /\ (true = false -> st' = st)
  /\ (true = true ->
        notary_storage st' !! "tx1" = None
        /\ forall later, cancel_transaction "tx1" later st' = Return (false, st')).
Proof.
  apply (cancel_transaction_effect "tx1" (1100 # 1)
           (snd (anchor_transaction
                   {| tx_id := "tx1"; body := []; anchored := None |}
                   (1000 # 1) init))).
  reflexivity.
Defined.

(** X19.  Anchoring a transaction again replaces its earlier anchor: the
    emulator is left as if only the last anchoring had happened, so a later
    cancellation compares the float difference between its reading and the
    last anchoring time with the window. *)
Theorem anchoring_again_restarts_the_window
  (tx : transaction) (t0 t1 now : Q) (st : emulator) :
  let twice := snd (anchor_transaction tx t1 (snd (anchor_transaction tx t0 st))) in
  let once := snd (anchor_transaction tx t1 st) in
  twice = once
  /\ cancel_transaction (tx_id tx) now twice
     = if Float.gt (Float.sub now t1) (cancellation_window st)
       then Return (false, once)
       else Return (true, {| notary_storage := delete (tx_id tx) (notary_storage once);
                             cancellation_window := cancellation_window st |}).
Proof.
  intros twice once.
  assert (E : twice = once).
  { unfold twice, once, anchor_transaction. cbn [snd notary_storage cancellation_window].
    f_equal. apply insert_insert_eq. }
  split; [exact E|]. rewrite E.
  unfold cancel_transaction, once.
  rewrite anchor_transaction_stores. cbn [anchored].
  reflexivity.
Qed.

End EmulatorProperties.

(** ** The compliance check of the transaction module *)

Module ComplianceCheckProperties.

Import Json TransactionUtils TransactionVerification.

Lemma validated_fields (tx : dict) :
  validate_tx_structure tx = true ->
  (exists v, getitem tx "amount" = Return v)
  /\ (exists v, getitem tx "recipient" = Return v).
Proof.
  unfold validate_tx_structure, required_fields. cbn [forallb].
  rewrite !andb_true_iff. unfold contains.
  intros (_ & Hr & _ & Ha & _).
  destruct (getitem tx "amount"); [|discriminate].
  destruct (getitem tx "recipient"); [|discriminate].
  eauto.
Qed.

(** X20.  [compliance_check] answers [True] exactly for a transaction that
    has the five required fields, whose amount (from the basic level on) is
    an integer with [0 < amount <= 10^6], and whose recipient (from the
    advanced level on) is not one of the blacklisted addresses.  The sender
    is not looked at. *)
Theorem compliance_check_accepts_exactly (tx : dict) (level : Z) :
  compliance_check tx level = Return true
  <-> validate_tx_structure tx = true
      /\ (COMPLIANCE_LEVEL_BASIC <= level ->
            exists a, getitem tx "amount" = Return (Int a)
                      /\ 0 < a <= MAX_TRANSACTION_AMOUNT)
      /\ (COMPLIANCE_LEVEL_ADVANCED <= level ->
            exists r, getitem tx "recipient" = Return r
                      /\ value_in r get_blacklist_addresses = false).
Proof.
  unfold compliance_check.
  destruct (validate_tx_structure tx) eqn:Hv; cbn [negb];
    [|split; [discriminate | intros [H _]; discriminate]].
  destruct (validated_fields tx Hv) as [[va Ha] [vr Hr]].
  rewrite Ha, Hr.
  unfold COMPLIANCE_LEVEL_BASIC, COMPLIANCE_LEVEL_ADVANCED, MAX_TRANSACTION_AMOUNT.
  destruct (Z.geb_spec level 1) as [H1|H1]; unfold Py.bind; cbn beta iota.
  - destruct va as [s|a]; cbn [amount_out_of_bounds]; cbn beta iota;
      unfold MAX_TRANSACTION_AMOUNT.
    + split; [discriminate|]. intros (_ & Hamt & _).
      destruct (Hamt H1) as (a & E & _). discriminate.
    + destruct (Z.leb_spec a 0) as [Hle|Hpos]; cbn [orb]; cbn beta iota.
      * split; [discriminate|]. intros (_ & Hamt & _).
        destruct (Hamt H1) as (a' & [= <-] & Hb). lia.
      * destruct (Z.gtb_spec a (10 ^ 6)) as [Hbig|Hok]; cbn [orb]; cbn beta iota.
        -- split; [discriminate|]. intros (_ & Hamt & _).
           destruct (Hamt H1) as (a' & [= <-] & Hb). lia.
        -- destruct (Z.geb_spec level 2) as [H2|H2].
           ++ destruct (value_in vr get_blacklist_addresses) eqn:Hb.
              ** split; [discriminate|]. intros (_ & _ & Hrec).
                 destruct (Hrec H2) as (r & [= <-] & Hr'). congruence.
              ** split; [|reflexivity]. intros _.
                 split; [reflexivity|]. split; intros _; [|eauto].
                 exists a. split; [reflexivity | lia].
           ++ split; [|reflexivity]. intros _.
              split; [reflexivity|]. split; [|lia].
              intros _. exists a. split; [reflexivity | lia].
  - destruct (Z.geb_spec level 2) as [H2|H2]; [lia|].
    split; [|reflexivity]. intros _. split; [reflexivity|]. split; lia.
Qed.

End ComplianceCheckProperties.

(** ** Hexadecimal text and the helpers of utils *)

Module UtilityProperties.

Import Py HexProperties.

(** What the readers see of any character that [hexval] takes for a digit. *)
Lemma hexval_read (c : ascii) (d : Z) :
  hexval c = Some d ->
  is_space c = false
  /\ (code c <? 127) = true
  /\ is_blank (code c) = false
  /\ (code c =? 95) = false
  /\ (code c =? 43) = false
  /\ (code c =? 45) = false
  /\ (code c =? 120) || (code c =? 88) = false.
Proof.
  destruct c as [[] [] [] [] [] [] [] []]; vm_compute; intros H;
    try discriminate H; repeat split.
Qed.

Lemma chr_code (c : ascii) : chr (code c) = c.
Proof. unfold chr, code. rewrite N2Z.id. apply ascii_N_embedding. Qed.

Lemma is_digit (c : ascii) : hexval c <> None -> exists d, hexval c = Some d.
Proof. destruct (hexval c) as [d|]; [eauto | contradiction]. Qed.

Lemma to_ascii_digits (s : string) :
  Forall (fun c => hexval c <> None) (list_ascii_of_string s) ->
  to_ascii (map code (list_ascii_of_string s)) = map code (list_ascii_of_string s).
Proof.
  induction s as [|c s IH]; cbn [list_ascii_of_string map to_ascii]; [reflexivity|].
  intros H. inversion H as [|? ? Hc Hs]; subst.
  destruct (is_digit c Hc) as [d Hd].
  destruct (hexval_read c d Hd) as (_ & A & _).
  rewrite A, IH by assumption. reflexivity.
Qed.

Lemma scan_digits_all (s : string) :
  Forall (fun c => hexval c <> None) (list_ascii_of_string s) ->
  forall acc, exists v,
    scan_digits (map code (list_ascii_of_string s)) acc false = Some (v, []).
Proof.
  induction s as [|c s IH]; cbn [list_ascii_of_string map scan_digits]; intros H acc.
  - eauto.
  - inversion H as [|? ? Hc Hs]; subst.
    destruct (is_digit c Hc) as [d Hd].
    destruct (hexval_read c d Hd) as (_ & _ & _ & U & _).
    rewrite U, chr_code, Hd. apply IH. assumption.
Qed.

(** [int(_, 16)] reads every non-empty run of hexadecimal digits. *)
Lemma int_base16_digits (s : string) :
  s <> "" ->
  Forall (fun c => hexval c <> None) (list_ascii_of_string s) ->
  exists v, int_base16 s = Some v.
Proof.
  intros Hne Hall. unfold int_base16. rewrite to_ascii_digits by assumption.
  destruct (scan_digits_all s Hall 0) as [v Hscan].
  destruct s as [|c s]; [contradiction|].
  cbn [list_ascii_of_string map] in *.
  inversion Hall as [|? ? Hc Hs]; subst.
  destruct (is_digit c Hc) as [d Hd].
  destruct (hexval_read c d Hd) as (_ & _ & B & _ & P & M & _).
  cbn [skip_blanks]. rewrite B.
  unfold strip_sign. rewrite P, M.
  assert (Hp : strip_prefix (code c :: map code (list_ascii_of_string s))
               = code c :: map code (list_ascii_of_string s)).
  { destruct s as [|x s]; [reflexivity|].
    cbn [list_ascii_of_string map strip_prefix].
    inversion Hs as [|? ? Hx _]; subst.
    destruct (is_digit x Hx) as [dx Hdx].
    destruct (hexval_read x dx Hdx) as (_ & _ & _ & _ & _ & _ & X).
    rewrite X, andb_false_r. reflexivity. }
  rewrite Hp. unfold starts_with_digit. rewrite chr_code, Hd, Hscan.
  cbn [skip_blanks]. eauto.
Qed.

(** [bytes.fromhex] reads the digits in pairs: a run of an odd number of
    them is refused. *)
Lemma fromhex_odd (s : string) :
  (Forall (fun c => hexval c <> None) (list_ascii_of_string s) ->
   Nat.odd (String.length s) = true -> fromhex s = Raise fromhex_error)
  /\ (forall c, hexval c <> None ->
      Forall (fun c => hexval c <> None) (list_ascii_of_string s) ->
      Nat.odd (String.length (String c s)) = true ->
      fromhex (String c s) = Raise fromhex_error).
Proof.
  induction s as [|d s [IH1 IH2]].
  - split; [discriminate|].
    intros c Hc _ _. destruct (is_digit c Hc) as [v Hv].
    destruct (hexval_read c v Hv) as (S & _).
    cbn [fromhex]. rewrite S, Hv. reflexivity.
  - split.
    + cbn [list_ascii_of_string]. intros H Hodd.
      inversion H as [|? ? Hd Hs]; subst. apply IH2; assumption.
    + intros c Hc H Hodd. cbn [list_ascii_of_string] in H.
      inversion H as [|? ? Hd Hs]; subst.
      destruct (is_digit c Hc) as [v Hv]. destruct (is_digit d Hd) as [w Hw].
      destruct (hexval_read c v Hv) as (S & _).
      cbn [String.length] in Hodd. rewrite Nat.odd_succ_succ in Hodd.
      cbn [fromhex]. rewrite S, Hv, Hw, (IH1 Hs Hodd). reflexivity.
Qed.

(** X21.  [is_hex_string] accepts every non-empty run of hexadecimal
    digits, of even or odd length; [bytes.fromhex], which the signature
    module applies to keys and signatures, raises [ValueError] on the runs
    of odd length.  Passing [is_hex_string] does not make a string safe for
    [bytes.fromhex]. *)
Theorem is_hex_string_accepts_odd_runs (s : string) :
  s <> "" ->
  Forall (fun c => hexval c <> None) (list_ascii_of_string s) ->
  Utils.is_hex_string s = true
  /\ (Nat.odd (String.length s) = true -> fromhex s = Raise fromhex_error).
Proof.
  intros Hne Hall. split.
  - unfold Utils.is_hex_string.
    destruct (int_base16_digits s Hne Hall) as [v ->]. reflexivity.
  - intros Hodd. apply (proj1 (fromhex_odd s)); assumption.
Qed.

Lemma is_hex_string_accepts_odd_runs_witness :
  Utils.is_hex_string "abc" = true
  /\ (Nat.odd (String.length "abc") = true -> fromhex "abc" = Raise fromhex_error).
Proof.
  apply (is_hex_string_accepts_odd_runs "abc"); [discriminate|].
  repeat constructor; vm_compute; discriminate.
Defined.

(** X22.  [to_hex] and [bytes.fromhex] are inverse on [bytes]: the text of
    [to_hex] has two characters per byte, decodes to the bytes it came from
    and, unless empty, passes [is_hex_string]. *)
Theorem to_hex_round_trip (data : bytes) :
  byte_range data ->
  fromhex (Utils.to_hex data) = Return data
  /\ String.length (Utils.to_hex data) = (2 * length data)%nat
  /\ (data <> [] -> Utils.is_hex_string (Utils.to_hex data) = true).
Proof.
  intros Hr. unfold Utils.to_hex, Utils.is_hex_string.
  split; [apply fromhex_hex; exact Hr|].
  split; [apply hex_length|].
  intros Hne. rewrite int_base16_hex by assumption. reflexivity.
Qed.

Lemma to_hex_round_trip_witness :
  fromhex (Utils.to_hex [0; 171; 255]) = Return [0; 171; 255]
  /\ String.length (Utils.to_hex [0; 171; 255]) = (2 * length [0; 171; 255])%nat
  /\ ([0; 171; 255] <> [] -> Utils.is_hex_string (Utils.to_hex [0; 171; 255]) = true).
Proof.
  apply (to_hex_round_trip [0; 171; 255]).
  repeat constructor; lia.
Defined.

End UtilityProperties.


(** ** Transaction ids and ledger keys *)

Module TxIdProperties.

Import Json HexProperties StoreProperties.

Local Abbreviation key_le :=
  (fun a b : string * value => String.leb (fst a) (fst b) = true).

Lemma leb_trans (a b c : string) :
  String.leb a b = true -> String.leb b c = true -> String.leb a c = true.
Proof.
  unfold String.leb. revert b c.
  induction a as [|x a IH]; intros [|y b] [|z c]; cbn [String.compare];
    try congruence.
  unfold Ascii.compare.
  destruct (N.compare_spec (N_of_ascii x) (N_of_ascii y));
    destruct (N.compare_spec (N_of_ascii y) (N_of_ascii z));
    destruct (N.compare_spec (N_of_ascii x) (N_of_ascii z));
    try congruence; try lia; try apply IH.
Qed.

Lemma key_le_transitive : Transitive key_le.
Proof. intros a b c. apply leb_trans. Qed.

Lemma insert_item_perm (kv : string * value) (d : dict) :
  Permutation (insert_item kv d) (kv :: d).
Proof.
  induction d as [|kv' d IH]; cbn [insert_item]; [reflexivity|].
  destruct (String.leb (fst kv) (fst kv')); [reflexivity|].
  rewrite IH. apply perm_swap.
Qed.

Lemma sort_items_perm (d : dict) : Permutation (sort_items d) d.
Proof.
  induction d as [|kv d IH]; [reflexivity|].
  unfold sort_items in *. cbn [fold_right].
  rewrite insert_item_perm, IH. reflexivity.
Qed.

Lemma insert_item_sorted (kv : string * value) (d : dict) :
  Sorted key_le d -> Sorted key_le (insert_item kv d).
Proof.
  induction d as [|kv' d IH]; cbn [insert_item]; intros Hs.
  - repeat constructor.
  - destruct (String.leb (fst kv) (fst kv')) eqn:E.
    + constructor; [exact Hs | constructor; exact E].
    + apply Sorted_inv in Hs. destruct Hs as [Hs Hhd].
      constructor; [apply IH; exact Hs|].
      assert (E' : String.leb (fst kv') (fst kv) = true).
      { destruct (String.leb_total (fst kv) (fst kv')); congruence. }
      destruct d as [|kv'' d]; cbn [insert_item]; [constructor; exact E'|].
      destruct (String.leb (fst kv) (fst kv'')); constructor;
        [exact E' | inversion Hhd; assumption].
Qed.

Lemma sort_items_sorted (d : dict) : Sorted key_le (sort_items d).
Proof.
  induction d as [|kv d IH]; [constructor|].
  apply insert_item_sorted. exact IH.
Qed.

Lemma key_determines_item (d : dict) (x y : string * value) :
  NoDup (map fst d) -> In x d -> In y d -> fst x = fst y -> x = y.
Proof.
  induction d as [|kv d IH]; cbn [map In]; [contradiction|].
  intros Hnd Hx Hy E. apply NoDup_cons in Hnd. destruct Hnd as [Hnotin Hnd].
  destruct Hx as [<-|Hx], Hy as [<-|Hy]; auto.
  - exfalso. apply Hnotin, list_elem_of_In. rewrite E. apply in_map. exact Hy.
  - exfalso. apply Hnotin, list_elem_of_In. rewrite <- E. apply in_map. exact Hx.
Qed.

(** On a [dict] (no key twice), [sorted] forgets the insertion order. *)
Lemma sort_items_order (d1 d2 : dict) :
  NoDup (map fst d1) -> Permutation d1 d2 -> sort_items d1 = sort_items d2.
Proof.
  intros Hnd Hp.
  apply (@Sorted_unique_strong _ key_le key_le_transitive).
  - intros x1 x2 H1 H2 L12 L21.
    apply (key_determines_item d1); [exact Hnd | | |].
    + apply (Permutation_in _ (sort_items_perm d1)). apply list_elem_of_In. exact H1.
    + apply (Permutation_in _ (Permutation_sym Hp)).
      apply (Permutation_in _ (sort_items_perm d2)). apply list_elem_of_In. exact H2.
    + apply String.leb_antisym; assumption.
  - apply sort_items_sorted.
  - apply sort_items_sorted.
  - rewrite !sort_items_perm. exact Hp.
Qed.

(** X23.  The three id functions of the repository agree, and the id of
    a transaction does not depend on the order in which its fields were
    inserted: two dicts with the same items get the same id, hence the same
    ledger key. *)
Theorem tx_id_ignores_field_order (tx1 tx2 : dict) :
  NoDup (map fst tx1) ->
  Permutation tx1 tx2 ->
  TransactionUtils.generate_tx_id tx1 = TransactionUtils.generate_tx_id tx2
  /\ DataUtils.hash_transaction tx2 = TransactionUtils.generate_tx_id tx1
  /\ Ledger._generate_tx_id tx2 = TransactionUtils.generate_tx_id tx1
  /\ forall family,
       Ledger.tx_key family (Ledger._generate_tx_id tx1)
       = Ledger.tx_key family (Ledger._generate_tx_id tx2).
Proof.
  intros Hnd Hp.
  unfold TransactionUtils.generate_tx_id, DataUtils.hash_transaction,
    Ledger._generate_tx_id, dumps.
  cbv zeta. rewrite (sort_items_order tx1 tx2 Hnd Hp). auto.
Qed.

Lemma tx_id_ignores_field_order_witness :
  let tx1 := [("sender", Str "S"); ("amount", Int 100)] in
  let tx2 := [("amount", Int 100); ("sender", Str "S")] in
  TransactionUtils.generate_tx_id tx1 = TransactionUtils.generate_tx_id tx2
  /\ DataUtils.hash_transaction tx2 = TransactionUtils.generate_tx_id tx1
  /\ Ledger._generate_tx_id tx2 = TransactionUtils.generate_tx_id tx1
  /\ forall family,
       Ledger.tx_key family (Ledger._generate_tx_id tx1)
       = Ledger.tx_key family (Ledger._generate_tx_id tx2).
Proof.
  apply (tx_id_ignores_field_order
           [("sender", Str "S"); ("amount", Int 100)]
           [("amount", Int 100); ("sender", Str "S")]).
  - apply NoDup_ListNoDup. repeat constructor; cbn; intuition discriminate.
  - apply perm_swap.
Defined.

(** The UTF-8 encoding of the code points below U+0100. *)
Lemma encode_two_bytes (c : ascii) :
  128 <= Py.code c ->
  Z.lor 192 (Z.shiftr (Py.code c) 6) = 192 + Py.code c / 64
  /\ Z.lor 128 (Z.land (Py.code c) 63) = 128 + Py.code c mod 64
  /\ Py.code c < 256.
Proof.
  destruct c as [[] [] [] [] [] [] [] []]; vm_compute; intros H;
    try (exfalso; apply H; reflexivity); repeat split.
Qed.

Lemma code_inj (a b : ascii) : Py.code a = Py.code b -> a = b.
Proof.
  intros E. rewrite <- (UtilityProperties.chr_code a), <- (UtilityProperties.chr_code b).
  congruence.
Qed.

Lemma encode_inj (a b : string) : Py.encode a = Py.encode b -> a = b.
Proof.
  revert b. induction a as [|x a IH]; intros [|y b]; cbn [Py.encode]; cbv zeta.
  - reflexivity.
  - destruct (Py.code y <? 128); discriminate.
  - destruct (Py.code x <? 128); discriminate.
  - destruct (Z.ltb_spec (Py.code x) 128) as [Hx|Hx];
      destruct (Z.ltb_spec (Py.code y) 128) as [Hy|Hy].
    + intros [= E1 E2]. f_equal; [apply code_inj; exact E1 | apply IH; exact E2].
    + destruct (encode_two_bytes y Hy) as (Y1 & _ & Y3). rewrite Y1.
      intros [= E1 _]. exfalso.
      assert (0 <= Py.code y / 64) by (apply Z.div_pos; lia). lia.
    + destruct (encode_two_bytes x Hx) as (X1 & _ & X3). rewrite X1.
      intros [= E1 _]. exfalso.
      assert (0 <= Py.code x / 64) by (apply Z.div_pos; lia). lia.
    + destruct (encode_two_bytes x Hx) as (X1 & X2 & _).
      destruct (encode_two_bytes y Hy) as (Y1 & Y2 & _).
      rewrite X1, X2, Y1, Y2. intros [= E1 E2 E3].
      f_equal; [|apply IH; exact E3].
      apply code_inj.
      rewrite (Z.div_mod (Py.code x) 64), (Z.div_mod (Py.code y) 64) by lia. lia.
Qed.

Lemma length_append (a b : string) :
  String.length (a +:+ b) = (String.length a + String.length b)%nat.
Proof.
  induction a as [|c a IH]; [reflexivity|].
  change (String c a +:+ b) with (String c (a +:+ b)).
  cbn [String.length]. rewrite IH. reflexivity.
Qed.

Lemma append_inj (a b s t : string) :
  String.length s = String.length t -> a +:+ s = b +:+ t -> a = b /\ s = t.
Proof.
  intros Hl E.
  assert (Hab : String.length a = String.length b).
  { apply (f_equal String.length) in E. rewrite !length_append in E. lia. }
  revert b E Hab. induction a as [|x a IH]; intros [|y b] E Hab; try discriminate Hab.
  - auto.
  - change (String x a +:+ s) with (String x (a +:+ s)) in E.
    change (String y b +:+ t) with (String y (b +:+ t)) in E.
    injection E as -> E.
    destruct (IH b E) as [-> ->]; [cbn [String.length] in Hab; lia | auto].
Qed.

(** X24.  Ids are 64 hexadecimal digits that pass [is_hex_string], and
    ledger keys are unambiguous: two transactions are stored under the same
    key only if both their families and their ids are equal, also when a
    family name contains the separator. *)
Theorem ledger_keys_unambiguous (tx1 tx2 : dict) (family1 family2 : string) :
  (String.length (Ledger._generate_tx_id tx1) = 64%nat
   /\ Utils.is_hex_string (Ledger._generate_tx_id tx1) = true)
  /\ (Ledger.tx_key family1 (Ledger._generate_tx_id tx1)
      = Ledger.tx_key family2 (Ledger._generate_tx_id tx2)
      <-> family1 = family2 /\ Ledger._generate_tx_id tx1 = Ledger._generate_tx_id tx2).
Proof.
  assert (Hlen : forall tx, String.length (Ledger._generate_tx_id tx) = 64%nat).
  { intros tx. unfold Ledger._generate_tx_id, Hashlib.sha256_hex.
    rewrite hex_length, (proj2 (sha256_shape _)). reflexivity. }
  split; [split; [apply Hlen|]|].
  - unfold Utils.is_hex_string, Ledger._generate_tx_id, Hashlib.sha256_hex.
    destruct (sha256_shape (Py.encode (dumps true tx1))) as [Hr Hl].
    rewrite int_base16_hex; [reflexivity | exact Hr |].
    intros E. rewrite E in Hl. discriminate.
  - generalize (Hlen tx1) (Hlen tx2).
    generalize (Ledger._generate_tx_id tx1) (Ledger._generate_tx_id tx2).
    intros id1 id2 H1 H2.
    split; [|intros [-> ->]; reflexivity].
    unfold Ledger.tx_key. intros E. apply encode_inj in E.
    apply append_inj in E.
    + destruct E as [-> E].
      change ("_" +:+ id1) with (String "_" id1) in E.
      change ("_" +:+ id2) with (String "_" id2) in E.
      split; congruence.
    + change (String.length (String "_" id1) = String.length (String "_" id2)).
      cbn [String.length]. congruence.
Qed.

End TxIdProperties.

(** ** Multi-exponentiation *)

Module MultiexponentiationProperties.

Import Bulletproofs.Utils.

Local Abbreviation factor :=
  (fun (result : Z) (be : Z * N) => result * fst be ^ Z.of_N (snd be)).

Lemma product_from (l : list (Z * N)) (acc : Z) :
  fold_left factor l acc = acc * fold_left factor l 1.
Proof.
  revert acc. induction l as [|be l IH]; intros acc; cbn [fold_left]; [lia|].
  rewrite (IH (acc * _)), (IH (1 * _)). lia.
Qed.

Lemma combine_append (A B : Type) (a1 a2 : list A) (b1 b2 : list B) :
  length a1 = length b1 ->
  combine (a1 ++ a2) (b1 ++ b2) = combine a1 b1 ++ combine a2 b2.
Proof.
  revert b1. induction a1 as [|x a1 IH]; intros [|y b1] H; try discriminate H.
  - reflexivity.
  - cbn [app combine]. rewrite IH by (injection H; auto). reflexivity.
Qed.

Lemma multiexponentiation_returns (bases : list Z) (exponents : list N) (r : Z) :
  multiexponentiation bases exponents = Return r ->
  length bases = length exponents
  /\ r = fold_left factor (combine bases exponents) 1.
Proof.
  unfold multiexponentiation.
  destruct (Nat.eqb_spec (length bases) (length exponents)) as [E|_];
    cbn [negb]; [|discriminate].
  intros [= <-]. auto.
Qed.

(** X25.  [multiexponentiation] is multiplicative over concatenation:
    where it returns on two pairs of lists, it returns the product of the
    two results on the concatenated lists. *)
Theorem multiexponentiation_of_concatenation
  (bases1 bases2 : list Z) (exponents1 exponents2 : list N) (r1 r2 : Z) :
  multiexponentiation bases1 exponents1 = Return r1 ->
  multiexponentiation bases2 exponents2 = Return r2 ->
  multiexponentiation (bases1 ++ bases2) (exponents1 ++ exponents2) = Return (r1 * r2).
Proof.
  intros H1 H2.
  apply multiexponentiation_returns in H1. destruct H1 as [L1 ->].
  apply multiexponentiation_returns in H2. destruct H2 as [L2 ->].
  unfold multiexponentiation. rewrite !length_app, L1, L2, Nat.eqb_refl.
  cbn [negb]. rewrite combine_append by exact L1.
  rewrite fold_left_app, product_from. reflexivity.
Qed.

Lemma multiexponentiation_of_concatenation_witness :
  multiexponentiation ([2] ++ [5; 3]) ([3%N] ++ [2%N; 0%N]) = Return (8 * 25).
Proof.
  apply (multiexponentiation_of_concatenation [2] [5; 3] [3%N] [2%N; 0%N] 8 25);
    reflexivity.
Defined.

End MultiexponentiationProperties.
